(** * rag_processor: a shallow embedding of [src/rag_processor.py]

    The module is a batch job that loads documents from a folder tree and
    from a list of web pages, normalises their text, splits them into
    chunks, rebuilds a persisted Chroma index from the chunks and returns
    a retriever on it.

    Python values are modelled as follows.
    - [str] is a sequence of Unicode code points: [list N].
    - A [dict] is a [gmap]; [list] is [list].
    - A raised exception is the [Raise] result; code that runs against the
      file system, the network or the vector store is a function of an
      explicit state (state passing with an exception result).
    - Standard-library and third-party calls are either written out
      (os.path.splitext, str.join, str.strip, the langchain character
      splitter) or fields of a record of external capabilities (the file
      system, document loaders, the embedding model, Chroma, the codecs
      behind [unicodedata.normalize] and [str.encode]). *)

From Stdlib Require Import ZArith Lia Bool Ascii String.
From stdpp Require Import base option list gmap.

Local Open Scope Z_scope.

(** ** Text *)

(** A Python [str]: its code points in order. *)
Abbreviation text := (list N).

(** The code points of an ASCII literal. *)
Definition str (s : string) : text :=
  map N_of_ascii (list_ascii_of_string s).

Module Py.

(** [sep.join(parts)] *)
Fixpoint join (sep : text) (parts : list text) : text :=
  match parts with
  | [] => []
  | [p] => p
  | p :: rest => p ++ sep ++ join sep rest
  end.

(** [s.startswith(p)] *)
Fixpoint startswith (p s : text) : bool :=
  match p, s with
  | [], _ => true
  | a :: p', b :: s' => (a =? b)%N && startswith p' s'
  | _ :: _, [] => false
  end.

(** [c.isspace()] for one code point: the characters whose
    bidirectional class is WS, B or S, or whose category is Zs. *)
Definition isspace (c : N) : bool :=
  ((9 <=? c) && (c <=? 13) || (28 <=? c) && (c <=? 32)
   || (c =? 133) || (c =? 160) || (c =? 5760)
   || (8192 <=? c) && (c <=? 8202)
   || (c =? 8232) || (c =? 8233) || (c =? 8239) || (c =? 8287)
   || (c =? 12288))%N.

(** [s.lstrip()], [s.rstrip()] and [s.strip()] *)
Fixpoint lstrip (s : text) : text :=
  match s with
  | c :: s' => if isspace c then lstrip s' else s
  | [] => []
  end.

Definition rstrip (s : text) : text := rev (lstrip (rev s)).

Definition strip (s : text) : text := rstrip (lstrip s).

(** Whether [s] has a character that is not white space. *)
Definition has_nonspace (s : text) : bool :=
  existsb (fun c => negb (isspace c)) s.

(** [s.rfind(ch)] for a one-character needle: the index of the last
    occurrence, -1 when there is none. *)
Fixpoint rfind_from (ch : N) (s : text) (i : Z) (last : Z) : Z :=
  match s with
  | [] => last
  | c :: s' => rfind_from ch s' (i + 1) (if (c =? ch)%N then i else last)
  end.

Definition rfind (ch : N) (s : text) : Z := rfind_from ch s 0 (-1).

(** [s[:i]] and [s[i:]] for [0 <= i]. *)
Definition slice_to (s : text) (i : Z) : text := take (Z.to_nat i) s.
Definition slice_from (s : text) (i : Z) : text := drop (Z.to_nat i) s.

(** [len(s)] *)
Definition len {A} (l : list A) : Z := Z.of_nat (length l).

End Py.

(** ** Exceptions *)

(** An instance of [Exception]: its class name and [str(e)]. *)
Record exn := Exn { exn_type : text; exn_msg : text }.

Inductive result (A : Type) : Type :=
| Ok (a : A)
| Raise (e : exn).
Arguments Ok {A} a.
Arguments Raise {A} e.

(** ** Values and documents *)

(** The Python values a metadata entry can hold. *)
Inductive value :=
| VStr (s : text)
| VInt (n : Z)
| VBool (b : bool)
| VNone.

(** [langchain.schema.Document] *)
Record Document := mkDocument {
  page_content : text;
  metadata : gmap text value
}.

(** ** The interpreter and the standard library around the module *)

Record runtime := {
  (** [sys.platform] *)
  sys_platform : text;
  (** [unicodedata.normalize('NFC', s)] *)
  unicodedata_normalize_NFC : text -> text;
  (** [s.encode("cp932", "ignore")] *)
  str_encode_cp932_ignore : text -> list Byte.byte;
  (** [b.decode("cp932")]; a strict decoder, it can raise
      [UnicodeDecodeError] *)
  bytes_decode_cp932 : list Byte.byte -> result text;
  (** [sys.getrecursionlimit()], counted in frames available to
      [recursive_file_check] *)
  recursion_limit : nat;
  (** [os.path.join(a, b)] of the platform's path module *)
  os_path_join : text -> text -> text
}.

(** ** adjust_string *)

Section AdjustString.

Variable rt : runtime.

(** [sys.platform.startswith("win")] *)
Definition on_windows : bool := Py.startswith (str "win") (sys_platform rt).

(** [s.encode("cp932", "ignore").decode("cp932")] *)
Definition cp932_round_trip (s : text) : result text :=
  bytes_decode_cp932 rt (str_encode_cp932_ignore rt s).

Definition adjust_string (s : value) : result value :=
  match s with
  | VStr t =>
      if on_windows then
        let t1 := unicodedata_normalize_NFC rt t in
        match cp932_round_trip t1 with
        | Ok t2 => Ok (VStr t2)
        | Raise e => Raise e
        end
      else Ok (VStr t)
  | _ => Ok s
  end.

(** [type(s) is not str] *)
Definition is_str (v : value) : bool :=
  match v with VStr _ => true | _ => false end.

End AdjustString.

(** What the standard library provides with the two codecs that
    [adjust_string] composes on Windows. *)
Record codec_laws (rt : runtime) : Prop := {
  (** decoding what the cp932 encoder wrote never fails *)
  round_trip_total : forall s, exists t, cp932_round_trip rt s = Ok t;
  (** a decoded text is encoded and decoded back to itself *)
  round_trip_fixed : forall s t,
    cp932_round_trip rt s = Ok t -> cp932_round_trip rt t = Ok t;
  (** dropping the characters cp932 lacks from a composed text leaves
      a composed text *)
  round_trip_composed : forall s t,
    cp932_round_trip rt (unicodedata_normalize_NFC rt s) = Ok t ->
    unicodedata_normalize_NFC rt t = t
}.

(** ** os.path *)

Module OsPath.

Definition dot : N := 46.
Definition slash : N := 47.
Definition backslash : N := 92.

(** The loop of [genericpath._splitext] that skips leading dots:
    [n] iterations remain, [filenameIndex] is the index looked at.
    It answers whether a character other than the dot was found. *)
Fixpoint found_non_dot (p : text) (filenameIndex : Z) (n : nat) : bool :=
  match n with
  | O => false
  | S n' =>
      match p !! Z.to_nat filenameIndex with
      | Some c =>
          if negb (c =? dot)%N then true
          else found_non_dot p (filenameIndex + 1) n'
      | None => true
      end
  end.

(** [genericpath._splitext(p, sep, altsep, extsep)] with [extsep = "."] *)
Definition _splitext (p : text) (sep : N) (altsep : option N) : text * text :=
  let sepIndex := Py.rfind sep p in
  let sepIndex :=
    match altsep with
    | Some a => Z.max sepIndex (Py.rfind a p)
    | None => sepIndex
    end in
  let dotIndex := Py.rfind dot p in
  if (sepIndex <? dotIndex)
     && found_non_dot p (sepIndex + 1) (Z.to_nat (dotIndex - (sepIndex + 1)))
  then (Py.slice_to p dotIndex, Py.slice_from p dotIndex)
  else (p, []).

(** [posixpath.splitext] and [ntpath.splitext] *)
Definition posix_splitext (p : text) : text * text := _splitext p slash None.
Definition nt_splitext (p : text) : text * text :=
  _splitext p backslash (Some slash).

End OsPath.

(** [os.path.splitext]: [os.path] is [ntpath] on Windows and
    [posixpath] elsewhere. *)
Definition os_path_splitext (rt : runtime) (p : text) : text * text :=
  if on_windows rt then OsPath.nt_splitext p else OsPath.posix_splitext p.

(** ** langchain's CharacterTextSplitter

    [langchain.text_splitter.CharacterTextSplitter] and its base class
    [TextSplitter], with the defaults the module leaves untouched:
    [length_function = len], [keep_separator = False],
    [is_separator_regex = False], [add_start_index = False],
    [strip_whitespace = True]. *)

Module TextSplitter.

Record t := {
  chunk_size : Z;
  chunk_overlap : Z;
  separator : text
}.

Definition value_error (msg : string) : exn := Exn (str "ValueError") (str msg).
Definition index_error : exn :=
  Exn (str "IndexError") (str "list index out of range").

(** [CharacterTextSplitter(chunk_size=.., chunk_overlap=.., separator=..)]:
    the constructor of [TextSplitter] validates the two sizes. *)
Definition create (size overlap : Z) (sep : text) : result t :=
  if size <=? 0 then Raise (value_error "chunk_size must be > 0")
  else if overlap <? 0 then Raise (value_error "chunk_overlap must be >= 0")
  else if size <? overlap then
    Raise (value_error "Got a larger chunk overlap than chunk size, should be smaller.")
  else Ok {| chunk_size := size; chunk_overlap := overlap; separator := sep |}.

(** [re.split(re.escape(sep), s)] for a non-empty literal [sep]: the
    pieces between the leftmost non-overlapping occurrences of [sep].
    [skip] counts the characters of a matched separator still to pass,
    [cur] holds the current piece reversed. *)
Fixpoint re_split_from (sep : text) (s : text) (skip : nat) (cur : text)
  : list text :=
  match s with
  | [] => [rev cur]
  | c :: s' =>
      match skip with
      | S k => re_split_from sep s' k cur
      | O =>
          if Py.startswith sep s
          then rev cur :: re_split_from sep s' (length sep - 1) []
          else re_split_from sep s' O (c :: cur)
      end
  end.

Definition re_split (sep s : text) : list text := re_split_from sep s O [].

Definition nonempty (s : text) : bool :=
  match s with [] => false | _ => true end.

(** [_split_text_with_regex(text, separator, keep_separator=False)] *)
Definition _split_text_with_regex (s sep : text) : list text :=
  let splits :=
    match sep with
    | [] => map (fun c => [c]) s
    | _ => re_split sep s
    end in
  filter (fun p => is_true (nonempty p)) splits.

(** [self._join_docs(docs, separator)] *)
Definition _join_docs (docs : list text) (sep : text) : option text :=
  let joined := Py.strip (Py.join sep docs) in
  match joined with
  | [] => None
  | _ => Some joined
  end.

(** The separator counted when [current_doc] holds more than [n]
    pieces: [separator_len if len(current_doc) > n else 0]. *)
Definition sep_if_more (n : nat) (current_doc : list text) (separator_len : Z) : Z :=
  if (n <? length current_doc)%nat then separator_len else 0.

(** The inner [while] of [_merge_splits], which drops pieces from the
    front of [current_doc]; [_len] is the length of the piece about to
    be added. Indexing an empty [current_doc] raises [IndexError]. *)
Fixpoint drop_front (sp : t) (separator_len _len : Z)
    (current_doc : list text) (total : Z) : result (list text * Z) :=
  if (chunk_overlap sp <? total)
     || ((chunk_size sp <? total + _len + sep_if_more 0 current_doc separator_len)
         && (0 <? total))
  then
    match current_doc with
    | [] => Raise index_error
    | first :: rest =>
        drop_front sp separator_len _len rest
          (total - (Py.len first + sep_if_more 1 current_doc separator_len))
    end
  else Ok (current_doc, total).

(** The variables of [_merge_splits]. *)
Record merge_state := {
  docs : list text;
  current_doc : list text;
  total : Z
}.

(** One iteration of [for d in splits]. *)
Definition merge_step (sp : t) (sep : text) (st : merge_state) (d : text)
  : result merge_state :=
  let separator_len := Py.len sep in
  let _len := Py.len d in
  let flushed :=
    if chunk_size sp <? total st + _len + sep_if_more 0 (current_doc st) separator_len
    then
      match current_doc st with
      | [] => Ok st
      | _ :: _ =>
          let docs' :=
            match _join_docs (current_doc st) sep with
            | Some doc => docs st ++ [doc]
            | None => docs st
            end in
          match drop_front sp separator_len _len (current_doc st) (total st) with
          | Ok (cur, tot) => Ok {| docs := docs'; current_doc := cur; total := tot |}
          | Raise e => Raise e
          end
      end
    else Ok st in
  match flushed with
  | Ok st' =>
      let cur := current_doc st' ++ [d] in
      Ok {| docs := docs st';
            current_doc := cur;
            total := total st' + (_len + sep_if_more 1 cur separator_len) |}
  | Raise e => Raise e
  end.

Fixpoint merge_loop (sp : t) (sep : text) (splits : list text) (st : merge_state)
  : result merge_state :=
  match splits with
  | [] => Ok st
  | d :: splits' =>
      match merge_step sp sep st d with
      | Ok st' => merge_loop sp sep splits' st'
      | Raise e => Raise e
      end
  end.

(** [self._merge_splits(splits, separator)] *)
Definition _merge_splits (sp : t) (splits : list text) (sep : text)
  : result (list text) :=
  match merge_loop sp sep splits {| docs := []; current_doc := []; total := 0 |} with
  | Ok st =>
      match _join_docs (current_doc st) sep with
      | Some doc => Ok (docs st ++ [doc])
      | None => Ok (docs st)
      end
  | Raise e => Raise e
  end.

(** The length of [separator.join(parts)], as [_merge_splits] keeps
    it in [total]. *)
Fixpoint joined_len (separator_len : Z) (parts : list text) : Z :=
  match parts with
  | [] => 0
  | p :: rest =>
      Py.len p +
      match rest with
      | [] => 0
      | _ :: _ => separator_len + joined_len separator_len rest
      end
  end.

(** [self.split_text(text)] *)
Definition split_text (sp : t) (s : text) : result (list text) :=
  let splits := _split_text_with_regex s (separator sp) in
  _merge_splits sp splits (separator sp).

(** [self.create_documents(texts, metadatas)], over the paired texts
    and metadatas of the documents. *)
Fixpoint create_documents (sp : t) (inputs : list Document)
  : result (list Document) :=
  match inputs with
  | [] => Ok []
  | doc :: inputs' =>
      match split_text sp (page_content doc) with
      | Ok chunks =>
          match create_documents sp inputs' with
          | Ok documents =>
              Ok (map (fun chunk => mkDocument chunk (metadata doc)) chunks
                  ++ documents)
          | Raise e => Raise e
          end
      | Raise e => Raise e
      end
  end.

(** [self.split_documents(documents)] *)
Definition split_documents (sp : t) (documents : list Document)
  : result (list Document) :=
  create_documents sp documents.

(** The invariant of the loop of [_merge_splits]: [total] is the
    joined length of [current_doc], whose pieces are not empty. *)
Definition coherent (sep : text) (st : merge_state) : Prop :=
  total st = joined_len (Py.len sep) (current_doc st) /\
  Forall (fun p => nonempty p = true) (current_doc st).

(** A chunk with content and no white space at its ends. *)
Definition clean_chunk (c : text) : Prop := c <> [] /\ Py.strip c = c.

(** Every piece of [s] between separators fits a chunk. *)
Definition pieces_fit (sp : t) (s : text) : Prop :=
  Forall (fun piece => Py.len piece <= chunk_size sp)
         (_split_text_with_regex s (separator sp)).

End TextSplitter.

(** ** The pipeline *)

(** The messages the module logs; the texts are fixed except for the
    values interpolated into them. *)
Inductive message :=
| MsgPersistDirectory (persist_directory : text)
| MsgLoadedDocuments (n : nat)
| MsgSplittedDocuments (n : nat)
| MsgStoreDeleted
| MsgStorePersisted
| MsgSavedFiles (files : list text)
| MsgSaveFailed
| MsgStoreCreationError (e_str : text)
| MsgRagCompleted
| MsgRagError (e_str : text).

Inductive level := INFO | ERROR.

(** The calls that act on the world outside the process, as they are
    issued. Queries ([os.path.isdir], [os.path.exists], [os.listdir])
    are not recorded. *)
Inductive event :=
| EvMakedirs (path : text)
| EvLoadFile (path : text)
| EvLoadWeb (url : text)
| EvOpenAIEmbeddings
| EvRmtree (path : text)
| EvChromaFromDocuments (documents : list Document) (persist_directory : text)
| EvChromaPersist.

Section Pipeline.

(** [W]: the world outside the process (file system, network, vector
    store); [Emb]: an embedding model handle; [Db]: a Chroma handle. *)
Context {W Emb Db : Type}.

(** [db.as_retriever(search_kwargs={"k": k})] *)
Record retriever := as_retriever { retriever_db : Db; retriever_k : Z }.

(** [constants.py] and the capabilities the module calls. A loader of
    [SUPPORTED_EXTENSIONS] stands for [cls(path).load()]; loaders and
    queries read the world, the other calls may change it. *)
Record env := {
  rt : runtime;
  RAG_TOP_FOLDER_PATH : text;
  WEB_URL_LOAD_TARGETS : list text;
  SUPPORTED_EXTENSIONS : gmap text (text -> W -> result (list Document));
  CHUNK_SIZE : Z;
  CHUNK_OVERLAP : Z;
  SEARCH_K : Z;
  LOG_DIR_PATH : text;
  CHROMA_DB_DIR : text;
  (** [os.makedirs(path, exist_ok=True)] *)
  os_makedirs : text -> W -> result unit * W;
  os_path_exists : text -> W -> bool;
  os_path_isdir : text -> W -> bool;
  os_listdir : text -> W -> result (list text);
  shutil_rmtree : text -> W -> result unit * W;
  (** [WebBaseLoader(url).load()] *)
  WebBaseLoader_load : text -> W -> result (list Document);
  OpenAIEmbeddings : W -> result Emb;
  Chroma_from_documents :
    list Document -> Emb -> text -> W -> result Db * W;
  Chroma_persist : Db -> W -> result unit * W
}.

(** The state a run threads: the world, the log written so far and
    the calls issued so far. *)
Record state := {
  world : W;
  log : list (level * message);
  trace : list event
}.

Definition M (A : Type) : Type := state -> result A * state.

Definition ret {A} (a : A) : M A := fun s => (Ok a, s).

Definition bind {A B} (m : M A) (f : A -> M B) : M B :=
  fun s =>
    match m s with
    | (Ok a, s') => f a s'
    | (Raise e, s') => (Raise e, s')
    end.

(** [raise e] *)
Definition raise {A} (e : exn) : M A := fun s => (Raise e, s).

(** [try: body except Exception as e: handler] *)
Definition try_except {A} (body : M A) (handler : exn -> M A) : M A :=
  fun s =>
    match body s with
    | (Ok a, s') => (Ok a, s')
    | (Raise e, s') => handler e s'
    end.

(** The state after the call [ev] was issued. *)
Definition emitted (ev : event) (s : state) : state :=
  {| world := world s; log := log s; trace := trace s ++ [ev] |}.

(** The state after [record] was logged. *)
Definition logged (record : level * message) (s : state) : state :=
  {| world := world s; log := log s ++ [record]; trace := trace s |}.

(** The state after the world became [w]. *)
Definition with_world (w : W) (s : state) : state :=
  {| world := w; log := log s; trace := trace s |}.

Definition emit (ev : event) : M unit := fun s => (Ok tt, emitted ev s).

(** The state after a loader was called on [path]. *)
Definition loaded (path : text) (s : state) : state := emitted (EvLoadFile path) s.

Definition is_load_file (ev : event) : Prop :=
  match ev with EvLoadFile _ => True | _ => False end.

(** [s'] differs from [s] by calls to file loaders only. *)
Definition after_loads (s s' : state) : Prop :=
  world s' = world s /\ log s' = log s /\
  exists evs, trace s' = trace s ++ evs /\ Forall is_load_file evs.

(** [logger.info(msg)] and [logger.error(msg)] *)
Definition logger (lv : level) (msg : message) : M unit :=
  fun s => (Ok tt, logged (lv, msg) s).

(** A call that reads the world. *)
Definition read {A} (f : W -> result A) : M A := fun s => (f (world s), s).

Definition query (f : W -> bool) : M bool := fun s => (Ok (f (world s)), s).

(** A call that may change the world. *)
Definition call {A} (f : W -> result A * W) : M A :=
  fun s => let '(r, w) := f (world s) in (r, with_world w s).

(** A computation that does not touch the state. *)
Definition pure {A} (r : result A) : M A := fun s => (r, s).

End Pipeline.

(** A result of [file_load] or [recursive_file_check] seen from a
    caller whose list already held [acc]. *)
Definition extend_result (acc : list Document) (r : result (list Document))
  : result (list Document) :=
  match r with
  | Ok new => Ok (acc ++ new)
  | Raise e => Raise e
  end.

(** The calls that remove or write the vector store. *)
Definition touches_store (ev : event) : Prop :=
  match ev with
  | EvRmtree _ | EvChromaFromDocuments _ _ | EvChromaPersist => True
  | _ => False
  end.

Arguments retriever : clear implicits.
Arguments env : clear implicits.
Arguments state : clear implicits.
Arguments M : clear implicits.

Declare Scope py_scope.
Delimit Scope py_scope with py.
Notation "x <- m ;; k" := (bind m (fun x => k))
  (at level 100, m at next level, right associativity,
   format "'[v' x  <-  m  ;;  '/' k ']'") : py_scope.
Notation "m ;;; k" := (bind m (fun _ => k))
  (at level 100, right associativity,
   format "'[v' m  ;;;  '/' k ']'") : py_scope.

Section RagProcessor.

Context {W Emb Db : Type}.
Variable E : env W Emb Db.
Local Open Scope py_scope.

Abbreviation M' := (M W).

Definition recursion_error : exn :=
  Exn (str "RecursionError") (str "maximum recursion depth exceeded").

(** [for x in xs: acc = body(acc, x)] *)
Fixpoint for_each {A B} (body : B -> A -> M' B) (xs : list A) (acc : B) : M' B :=
  match xs with
  | [] => ret acc
  | x :: xs' => acc' <- body acc x ;; for_each body xs' acc'
  end.

(** [loader = ct.SUPPORTED_EXTENSIONS[file_extension](path);
    docs = loader.load()] *)
Definition loader_load (loader : text -> W -> result (list Document)) (path : text)
  : M' (list Document) :=
  emit (EvLoadFile path) ;;; read (loader path).

(** [file_load(path, docs_all)]; the list [docs_all] that the Python
    function extends in place is returned. The function also computes
    [file_name = os.path.basename(path)], which it does not use. *)
Definition file_load (path : text) (docs_all : list Document) : M' (list Document) :=
  let file_extension := snd (os_path_splitext (rt E) path) in
  match SUPPORTED_EXTENSIONS E !! file_extension with
  | Some loader =>
      if decide (file_extension = str ".csv") then
        docs <- loader_load loader path ;;
        let combined_text := Py.join [10%N] (map page_content docs) in
        ret (docs_all ++
             [mkDocument combined_text {[ str "source" := VStr path ]}])
      else
        docs <- loader_load loader path ;;
        ret (docs_all ++ docs)
  | None => ret docs_all
  end.

(** [recursive_file_check(path, docs_all)] with [depth] stack frames
    left; Python raises [RecursionError] when they run out. *)
Fixpoint recursive_file_check (depth : nat) (path : text) (docs_all : list Document)
  : M' (list Document) :=
  match depth with
  | O => raise recursion_error
  | S depth' =>
      isdir <- query (os_path_isdir E path) ;;
      if isdir then
        files <- read (os_listdir E path) ;;
        for_each
          (fun docs_all file =>
             let full_path := os_path_join (rt E) path file in
             recursive_file_check depth' full_path docs_all)
          files docs_all
      else
        file_load path docs_all
  end.

(** [load_data_sources()] *)
Definition load_data_sources : M' (list Document) :=
  docs_all <- recursive_file_check (recursion_limit (rt E))
                (RAG_TOP_FOLDER_PATH E) [] ;;
  web_docs_all <-
    for_each
      (fun web_docs_all web_url =>
         emit (EvLoadWeb web_url) ;;;
         web_docs <- read (WebBaseLoader_load E web_url) ;;
         ret (web_docs_all ++ web_docs))
      (WEB_URL_LOAD_TARGETS E) [] ;;
  ret (docs_all ++ web_docs_all).

(** The content of a value that is a [str]. *)
Definition text_of (v : value) (default : text) : text :=
  match v with VStr t => t | _ => default end.

(** The first exception [adjust_string] raises on the values of a
    metadata dict, if any. *)
Fixpoint first_failure (vs : list value) : option exn :=
  match vs with
  | [] => None
  | v :: vs' =>
      match adjust_string (rt E) v with
      | Raise e => Some e
      | Ok _ => first_failure vs'
      end
  end.

(** The body of [for doc in docs_all]: the content and every metadata
    value are replaced by their [adjust_string]. *)
Definition adjust_document (doc : Document) : result Document :=
  match adjust_string (rt E) (VStr (page_content doc)) with
  | Raise e => Raise e
  | Ok content =>
      match first_failure (snd <$> map_to_list (metadata doc)) with
      | Some e => Raise e
      | None =>
          Ok (mkDocument
                (text_of content (page_content doc))
                ((fun v => match adjust_string (rt E) v with
                           | Ok v' => v'
                           | Raise _ => v
                           end) <$> metadata doc))
      end
  end.

Fixpoint adjust_documents (docs_all : list Document) : result (list Document) :=
  match docs_all with
  | [] => Ok []
  | doc :: rest =>
      match adjust_document doc with
      | Raise e => Raise e
      | Ok doc' =>
          match adjust_documents rest with
          | Raise e => Raise e
          | Ok rest' => Ok (doc' :: rest')
          end
      end
  end.

(** The first statement of the [try] block of [process_rag]: the
    directory is removed and created again if it exists. *)
Definition clear_store (persist_directory : text) : M' unit :=
  present <- query (os_path_exists E persist_directory) ;;
  if present then
    emit (EvRmtree persist_directory) ;;;
    call (shutil_rmtree E persist_directory) ;;;
    emit (EvMakedirs persist_directory) ;;;
    call (os_makedirs E persist_directory) ;;;
    logger INFO MsgStoreDeleted
  else ret tt.

(** The rest of the [try] block: the store is built from the chunks
    and persisted, the files written are logged and the retriever is
    returned. *)
Definition build_store (persist_directory : text) (embeddings : Emb)
    (splitted_docs : list Document) : M' (retriever Db) :=
  emit (EvChromaFromDocuments splitted_docs persist_directory) ;;;
  db <- call (Chroma_from_documents E splitted_docs embeddings persist_directory) ;;
  emit EvChromaPersist ;;;
  call (Chroma_persist E db) ;;;
  logger INFO MsgStorePersisted ;;;
  present <- query (os_path_exists E persist_directory) ;;
  (if present then
     files <- read (os_listdir E persist_directory) ;;
     logger INFO (MsgSavedFiles files)
   else logger ERROR MsgSaveFailed) ;;;
  ret (as_retriever db (SEARCH_K E)).

(** The [try] block of [process_rag]. *)
Definition rebuild_store (persist_directory : text) (embeddings : Emb)
    (splitted_docs : list Document) : M' (retriever Db) :=
  clear_store persist_directory ;;;
  build_store persist_directory embeddings splitted_docs.

(** The statements of [process_rag] before its [try]: they yield the
    embedding model and the chunks. *)
Definition prepare (persist_directory : text) : M' (Emb * list Document) :=
  emit (EvMakedirs persist_directory) ;;;
  call (os_makedirs E persist_directory) ;;;
  logger INFO (MsgPersistDirectory persist_directory) ;;;
  docs_all <- load_data_sources ;;
  logger INFO (MsgLoadedDocuments (length docs_all)) ;;;
  docs_all <- pure (adjust_documents docs_all) ;;
  emit EvOpenAIEmbeddings ;;;
  embeddings <- read (OpenAIEmbeddings E) ;;
  text_splitter <-
    pure (TextSplitter.create (CHUNK_SIZE E) (CHUNK_OVERLAP E) [10%N]) ;;
  splitted_docs <- pure (TextSplitter.split_documents text_splitter docs_all) ;;
  logger INFO (MsgSplittedDocuments (length splitted_docs)) ;;;
  ret (embeddings, splitted_docs).

(** The [except Exception as e] clause of [process_rag]. *)
Definition log_and_reraise (e : exn) : M' (retriever Db) :=
  logger ERROR (MsgStoreCreationError (exn_msg e)) ;;;
  raise e.

(** [process_rag(persist_directory)] *)
Definition process_rag (persist_directory : text) : M' (retriever Db) :=
  prepared <- prepare persist_directory ;;
  try_except
    (rebuild_store persist_directory (fst prepared) (snd prepared))
    log_and_reraise.

(** The body under [if __name__ == "__main__"]; the set-up of the log
    handler is left out. *)
Definition main : M' unit :=
  emit (EvMakedirs (LOG_DIR_PATH E)) ;;;
  call (os_makedirs E (LOG_DIR_PATH E)) ;;;
  try_except
    (retriever <- process_rag (CHROMA_DB_DIR E) ;;
     logger INFO MsgRagCompleted)
    (fun e =>
       logger ERROR (MsgRagError (exn_msg e)) ;;;
       raise e).

(** The calls of the [try] block in the order the code issues them,
    with and without the removal of the directory. *)
Definition build_calls (persist_directory : text) (splitted_docs : list Document)
  : list event :=
  [EvChromaFromDocuments splitted_docs persist_directory; EvChromaPersist].

Definition rebuild_calls (persist_directory : text) (splitted_docs : list Document)
  : list event :=
  EvRmtree persist_directory :: EvMakedirs persist_directory
    :: build_calls persist_directory splitted_docs.

Definition is_info (record : level * message) : Prop := fst record = INFO.

(** The calls of the statements before the [try], given the calls to
    file loaders among them. *)
Definition prepare_calls (persist_directory : text) (file_events : list event)
  : list event :=
  [EvMakedirs persist_directory] ++ file_events
    ++ map EvLoadWeb (WEB_URL_LOAD_TARGETS E) ++ [EvOpenAIEmbeddings].


(** What is expected of [os.makedirs]: after it returns, the
    directory exists. *)
Definition makedirs_creates : Prop :=
  forall p w w', os_makedirs E p w = (Ok tt, w') -> os_path_exists E p w' = true.

End RagProcessor.

(** ** A small concrete world

    A file system kept as two tables, loaders for two formats, and a
    vector store that writes one file; used to run the pipeline on
    concrete inputs. *)

Module Sample.

Record fs := {
  (** directory path and the names listed in it *)
  dirs : list (text * list text);
  (** file path and the records of the file *)
  files : list (text * list text)
}.

Fixpoint assoc {A} (k : text) (l : list (text * A)) : option A :=
  match l with
  | [] => None
  | (k', a) :: l' => if decide (k = k') then Some a else assoc k l'
  end.

Definition isdir (p : text) (w : fs) : bool :=
  match assoc p (dirs w) with Some _ => true | None => false end.

Definition isfile (p : text) (w : fs) : bool :=
  match assoc p (files w) with Some _ => true | None => false end.

Definition exists_ (p : text) (w : fs) : bool := isdir p w || isfile p w.

Definition os_error (name : string) (p : text) : exn := Exn (str name) p.

Definition listdir (p : text) (w : fs) : result (list text) :=
  match assoc p (dirs w) with
  | Some names => Ok names
  | None =>
      if isfile p w then Raise (os_error "NotADirectoryError" p)
      else Raise (os_error "FileNotFoundError" p)
  end.

Definition makedirs (p : text) (w : fs) : result unit * fs :=
  if isdir p w then (Ok tt, w)
  else if isfile p w then (Raise (os_error "FileExistsError" p), w)
  else (Ok tt, {| dirs := (p, []) :: dirs w; files := files w |}).

(** [p] itself or a path below it *)
Definition within (p : text) (q : text) : bool :=
  bool_decide (q = p) || Py.startswith (p ++ [OsPath.slash]) q.

Definition rmtree (p : text) (w : fs) : result unit * fs :=
  if isdir p w then
    (Ok tt,
     {| dirs := filter (fun e => is_true (negb (within p (fst e)))) (dirs w);
        files := filter (fun e => is_true (negb (within p (fst e)))) (files w) |})
  else if isfile p w then (Raise (os_error "NotADirectoryError" p), w)
  else (Raise (os_error "FileNotFoundError" p), w).

(** [posixpath.join(a, b)] *)
Definition join (a b : text) : text :=
  if Py.startswith [OsPath.slash] b then b
  else match last a with
       | None => b
       | Some c => if (c =? OsPath.slash)%N then a ++ b else a ++ [OsPath.slash] ++ b
       end.

(** A text loader: one document for the file. *)
Definition text_loader (p : text) (w : fs) : result (list Document) :=
  match assoc p (files w) with
  | Some records =>
      Ok [mkDocument (Py.join [10%N] records) {[ str "source" := VStr p ]}]
  | None => Raise (os_error "FileNotFoundError" p)
  end.

(** A tabular loader: one document for each record. *)
Definition csv_loader (p : text) (w : fs) : result (list Document) :=
  match assoc p (files w) with
  | Some records =>
      Ok (imap (fun i r =>
                  mkDocument r (<[ str "row" := VInt (Z.of_nat i) ]>
                                  {[ str "source" := VStr p ]}))
               records)
  | None => Raise (os_error "FileNotFoundError" p)
  end.

Definition chroma_file (p : text) : text := join p (str "chroma.sqlite3").

(** A vector store that writes its documents' contents to one file
    of the directory, which must exist. *)
Definition from_documents (documents : list Document) (_ : unit) (p : text) (w : fs)
  : result (list Document) * fs :=
  match assoc p (dirs w) with
  | Some names =>
      (Ok documents,
       {| dirs := (p, str "chroma.sqlite3" :: names)
                    :: filter (fun e => is_true (negb (bool_decide (fst e = p)))) (dirs w);
          files := (chroma_file p, map page_content documents) :: files w |})
  | None => (Raise (os_error "FileNotFoundError" p), w)
  end.

(** A toy canonical composition: [e] followed by U+0301 becomes
    U+00E9. *)
Fixpoint compose (s : text) : text :=
  match s with
  | a :: s1 =>
      match s1 with
      | b :: s2 =>
          if ((a =? 101) && (b =? 769))%N then 233%N :: compose s2
          else a :: compose s1
      | [] => [a]
      end
  | [] => []
  end.

(** A toy single-byte codec in place of cp932: it has the code points
    below 128 only. *)
Definition encode_ignore (s : text) : list Byte.byte :=
  omap (fun c => if (c <? 128)%N then Byte.of_N c else None) s.

Definition decode (b : list Byte.byte) : result text := Ok (map Byte.to_N b).

Definition runtime_on (platform : string) : runtime :=
  {| sys_platform := str platform;
     unicodedata_normalize_NFC := compose;
     str_encode_cp932_ignore := encode_ignore;
     bytes_decode_cp932 := decode;
     recursion_limit := 1000;
     os_path_join := join |}.

Definition linux : runtime := runtime_on "linux".
Definition win32 : runtime := runtime_on "win32".

(** An environment over a runtime, a list of web pages and a vector
    store: text and tabular files are supported. *)
Definition environment_with (r : runtime) (urls : list text)
    (store : list Document -> unit -> text -> fs -> result (list Document) * fs)
  : env fs unit (list Document) :=
  {| rt := r;
     RAG_TOP_FOLDER_PATH := str "data";
     WEB_URL_LOAD_TARGETS := urls;
     SUPPORTED_EXTENSIONS :=
       <[ str ".csv" := csv_loader ]> {[ str ".txt" := text_loader ]};
     CHUNK_SIZE := 500;
     CHUNK_OVERLAP := 50;
     SEARCH_K := 5;
     LOG_DIR_PATH := str "logs";
     CHROMA_DB_DIR := str "chroma_db";
     os_makedirs := makedirs;
     os_path_exists := exists_;
     os_path_isdir := isdir;
     os_listdir := listdir;
     shutil_rmtree := rmtree;
     WebBaseLoader_load := fun url _ =>
       Ok [mkDocument (str "page") {[ str "source" := VStr url ]}];
     OpenAIEmbeddings := fun _ => Ok tt;
     Chroma_from_documents := store;
     Chroma_persist := fun _ w => (Ok tt, w) |}.

Definition environment (r : runtime) (urls : list text) : env fs unit (list Document) :=
  environment_with r urls from_documents.

(** A vector store whose embedding call fails. *)
Definition rate_limit : exn := Exn (str "RateLimitError") (str "quota exceeded").

Definition failing_store (_ : list Document) (_ : unit) (_ : text) (w : fs)
  : result (list Document) * fs :=
  (Raise rate_limit, w).

(** A corpus: a text file, a table of three records, a file of an
    unsupported format and an empty sub-folder; no index directory. *)
Definition corpus : fs :=
  {| dirs := [ (str "data", [str "a.txt"; str "t.csv"; str "b.bin"; str "sub"]);
               (str "data/sub", []) ];
     files := [ (str "data/a.txt", [str "A"; str "B"; str "C"]);
                (str "data/t.csv", [str "r1"; str "r2"; str "r3"]);
                (str "data/b.bin", [str "?"]) ] |}.

(** The same corpus beside an index directory that exists and is
    empty. *)
Definition corpus_with_empty_store : fs :=
  {| dirs := (str "chroma_db", []) :: dirs corpus; files := files corpus |}.

(** A folder that lists two names with nothing behind them, as broken
    symbolic links are listed. *)
Definition dangling : fs :=
  {| dirs := [ (str "data", [str "ghost.bin"; str "ghost.txt"]) ]; files := [] |}.

(** The same environment with another web loader. *)
Definition with_web_loader (E : env fs unit (list Document))
    (load : text -> fs -> result (list Document)) : env fs unit (list Document) :=
  {| rt := rt E;
     RAG_TOP_FOLDER_PATH := RAG_TOP_FOLDER_PATH E;
     WEB_URL_LOAD_TARGETS := WEB_URL_LOAD_TARGETS E;
     SUPPORTED_EXTENSIONS := SUPPORTED_EXTENSIONS E;
     CHUNK_SIZE := CHUNK_SIZE E;
     CHUNK_OVERLAP := CHUNK_OVERLAP E;
     SEARCH_K := SEARCH_K E;
     LOG_DIR_PATH := LOG_DIR_PATH E;
     CHROMA_DB_DIR := CHROMA_DB_DIR E;
     os_makedirs := os_makedirs E;
     os_path_exists := os_path_exists E;
     os_path_isdir := os_path_isdir E;
     os_listdir := os_listdir E;
     shutil_rmtree := shutil_rmtree E;
     WebBaseLoader_load := load;
     OpenAIEmbeddings := OpenAIEmbeddings E;
     Chroma_from_documents := Chroma_from_documents E;
     Chroma_persist := Chroma_persist E |}.

(** A web loader that reaches the pages served over https only. *)
Definition https_only (url : text) (_ : fs) : result (list Document) :=
  if Py.startswith (str "https://") url
  then Ok [mkDocument (str "page") {[ str "source" := VStr url ]}]
  else Raise (os_error "ConnectionError" url).

Definition initial (w : fs) : state fs :=
  {| world := w; log := []; trace := [] |}.

End Sample.

(** * Properties *)

(** ** adjust_string *)

(** C4. [adjust_string] returns a value that is not a [str] unchanged on
    every platform; on a platform whose name does not start with "win"
    it returns a [str] unchanged as well; on Windows a [str] is composed
    (NFC), encoded to cp932 with unencodable characters ignored, and
    decoded back. *)
Theorem adjust_string_by_platform (r : runtime) (v : value) :
  (is_str v = false -> adjust_string r v = Ok v) /\
  (on_windows r = false -> adjust_string r v = Ok v) /\
  (forall t, on_windows r = true -> v = VStr t ->
     adjust_string r v =
       match bytes_decode_cp932 r
               (str_encode_cp932_ignore r (unicodedata_normalize_NFC r t)) with
       | Ok t' => Ok (VStr t')
       | Raise e => Raise e
       end).
Proof.
  repeat split.
  - destruct v; simpl; intros H; (discriminate || reflexivity).
  - intros H. destruct v; simpl; try reflexivity. now rewrite H.
  - intros t H ->. simpl. now rewrite H.
Qed.

Lemma adjust_string_by_platform_witness :
  adjust_string Sample.win32 (VInt 7) = Ok (VInt 7) /\
  adjust_string Sample.linux (VStr [101; 769; 120; 12354]%N)
    = Ok (VStr [101; 769; 120; 12354]%N) /\
  adjust_string Sample.win32 (VStr [101; 769; 120; 12354]%N) = Ok (VStr [120%N]).
Proof.
  split; [| split].
  - apply (proj1 (adjust_string_by_platform Sample.win32 (VInt 7))). reflexivity.
  - apply (proj1 (proj2 (adjust_string_by_platform Sample.linux
                           (VStr [101; 769; 120; 12354]%N)))).
    reflexivity.
  - rewrite (proj2 (proj2 (adjust_string_by_platform Sample.win32
                             (VStr [101; 769; 120; 12354]%N)))
               [101; 769; 120; 12354]%N); reflexivity.
Defined.

(** The sample codec satisfies the codec laws. *)

Lemma sample_encode_decode_small (s : text) :
  Forall (fun c => (c < 128)%N) (map Byte.to_N (Sample.encode_ignore s)).
Proof.
  induction s as [|c s IH]; simpl; [constructor|].
  unfold Sample.encode_ignore in *. simpl.
  destruct (N.ltb_spec c 128) as [Hlt|Hge]; [|exact IH].
  destruct (Byte.of_N c) as [b|] eqn:Hb; simpl; [|exact IH].
  constructor; [|exact IH].
  now rewrite (Byte.to_of_N _ Hb).
Qed.

Lemma sample_round_trip_small (t : text) :
  Forall (fun c => (c < 128)%N) t ->
  map Byte.to_N (Sample.encode_ignore t) = t.
Proof.
  induction 1 as [|c t Hc _ IH]; [reflexivity|].
  unfold Sample.encode_ignore in *. simpl.
  destruct (N.ltb_spec c 128) as [_|Hge]; [|lia].
  destruct (Byte.of_N c) as [b|] eqn:Hb.
  - simpl. rewrite (Byte.to_of_N _ Hb). now f_equal.
  - exfalso. apply Byte.of_N_None_iff in Hb. lia.
Qed.

Lemma sample_compose_small (t : text) :
  Forall (fun c => (c < 128)%N) t -> Sample.compose t = t.
Proof.
  induction 1 as [|a t Ha Ht IH]; [reflexivity|].
  destruct Ht as [|b t' Hb Ht']; [reflexivity|].
  change (Sample.compose (a :: b :: t')) with
    (if ((a =? 101) && (b =? 769))%N then 233%N :: Sample.compose t'
     else a :: Sample.compose (b :: t')).
  replace (b =? 769)%N with false by (symmetry; apply N.eqb_neq; lia).
  rewrite andb_false_r. now rewrite IH.
Qed.

Lemma sample_codec_laws (platform : string) : codec_laws (Sample.runtime_on platform).
Proof.
  split.
  - intros s. eexists. reflexivity.
  - intros s t H. unfold cp932_round_trip in *. simpl in *.
    unfold Sample.decode in *. injection H as <-.
    f_equal. apply sample_round_trip_small, sample_encode_decode_small.
  - intros s t H. unfold cp932_round_trip in H. simpl in *.
    unfold Sample.decode in H. injection H as <-.
    apply sample_compose_small, sample_encode_decode_small.
Qed.



(** ** os.path.splitext *)

Lemma rfind_from_spec (ch : N) (s : text) :
  forall i last,
    last < i ->
    (Py.rfind_from ch s i last = last /\ Forall (fun c => c <> ch) s) \/
    (i <= Py.rfind_from ch s i last /\
     exists pre post,
       s = pre ++ ch :: post /\
       Z.of_nat (length pre) = Py.rfind_from ch s i last - i /\
       Forall (fun c => c <> ch) post).
Proof.
  induction s as [|c s IH]; intros i last Hlt; cbn [Py.rfind_from].
  - left. split; [reflexivity | constructor].
  - destruct (N.eqb_spec c ch) as [->|Hne].
    + right. destruct (IH (i + 1) i ltac:(lia)) as [[Hr Hall]|(Hle & pre & post & Hs & Hlen & Hall)].
      * split; [lia|]. exists [], s. rewrite Hr. repeat split; [simpl; lia | exact Hall].
      * split; [lia|]. exists (ch :: pre), post. rewrite Hs at 1.
        repeat split; [cbn [length]; lia | exact Hall].
    + destruct (IH (i + 1) last ltac:(lia)) as [[Hr Hall]|(Hle & pre & post & Hs & Hlen & Hall)].
      * left. split; [exact Hr | now constructor].
      * right. split; [lia|]. exists (c :: pre), post. rewrite Hs at 1.
        repeat split; [cbn [length]; lia | exact Hall].
Qed.

Lemma rfind_lower_bound (ch : N) (s : text) : -1 <= Py.rfind ch s.
Proof.
  unfold Py.rfind.
  destruct (rfind_from_spec ch s 0 (-1) ltac:(lia)) as [[-> _]|[H _]]; lia.
Qed.

(** The two parts [_splitext] returns make up the path as written, and
    the extension is empty or starts with its only dot. *)
Lemma _splitext_literal (p : text) (sep : N) (altsep : option N) :
  p = fst (OsPath._splitext p sep altsep) ++ snd (OsPath._splitext p sep altsep) /\
  (snd (OsPath._splitext p sep altsep) = [] \/
   exists rest,
     snd (OsPath._splitext p sep altsep) = OsPath.dot :: rest /\
     Forall (fun c => c <> OsPath.dot) rest).
Proof.
  unfold OsPath._splitext.
  set (sepIndex := match altsep with
                   | Some a => Z.max (Py.rfind sep p) (Py.rfind a p)
                   | None => Py.rfind sep p
                   end).
  assert (Hsep : -1 <= sepIndex).
  { subst sepIndex. pose proof (rfind_lower_bound sep p).
    destruct altsep as [a|]; [pose proof (rfind_lower_bound a p)|]; lia. }
  destruct (_ && _) eqn:Hcond; cbn [fst snd].
  - apply andb_true_iff in Hcond as [Hlt%Z.ltb_lt _].
    unfold Py.slice_to, Py.slice_from. split; [now rewrite take_drop|].
    right. unfold Py.rfind in *.
    destruct (rfind_from_spec OsPath.dot p 0 (-1) ltac:(lia))
      as [[Hr _]|(_ & pre & post & Hp & Hlen & Hall)]; [lia|].
    exists post. split; [|exact Hall].
    rewrite Hp at 2. replace (Z.to_nat _) with (length pre) by lia.
    now rewrite drop_app_length.
  - split; [now rewrite app_nil_r | now left].
Qed.

Lemma os_path_splitext_literal (r : runtime) (p : text) :
  p = fst (os_path_splitext r p) ++ snd (os_path_splitext r p) /\
  (snd (os_path_splitext r p) = [] \/
   exists rest,
     snd (os_path_splitext r p) = OsPath.dot :: rest /\
     Forall (fun c => c <> OsPath.dot) rest).
Proof.
  unfold os_path_splitext, OsPath.nt_splitext, OsPath.posix_splitext.
  destruct (on_windows r); apply _splitext_literal.
Qed.

(** ** file_load and recursive_file_check *)

Section FileLoading.

Context {W Emb Db : Type}.
Variable E : env W Emb Db.

Lemma loader_load_result (loader : text -> W -> result (list Document))
    (path : text) (s : state W) :
  loader_load loader path s = (loader path (world s), loaded path s).
Proof. reflexivity. Qed.

(** C3. For a path whose extension is ".csv", with a loader registered
    for it that returns the records [docs], [file_load] appends exactly
    one document: its content is the records' contents joined by
    newlines and its metadata is the single entry source = path. *)
Theorem file_load_csv_one_document (path : text) (docs_all docs : list Document)
    (loader : text -> W -> result (list Document)) (s : state W) :
  snd (os_path_splitext (rt E) path) = str ".csv" ->
  SUPPORTED_EXTENSIONS E !! str ".csv" = Some loader ->
  loader path (world s) = Ok docs ->
  file_load E path docs_all s =
    (Ok (docs_all ++
         [mkDocument (Py.join [10%N] (map page_content docs))
                     {[ str "source" := VStr path ]}]),
     loaded path s).
Proof.
  intros Hext Hsup Hload. unfold file_load. rewrite Hext, Hsup.
  destruct (decide (str ".csv" = str ".csv")) as [_|Hne]; [|now destruct Hne].
  unfold bind. rewrite loader_load_result, Hload. reflexivity.
Qed.

(** C5. For a path whose extension, taken as written with its leading
    dot, is not among the keys of [SUPPORTED_EXTENSIONS], [file_load]
    returns the accumulator as it was, raises nothing and calls no
    loader. *)
Theorem file_load_unsupported_skipped (path : text) (docs_all : list Document)
    (s : state W) :
  snd (os_path_splitext (rt E) path) ∉ dom (SUPPORTED_EXTENSIONS E) ->
  file_load E path docs_all s = (Ok docs_all, s).
Proof.
  intros Hsup. apply not_elem_of_dom in Hsup.
  unfold file_load. now rewrite Hsup.
Qed.

Lemma file_load_loader_error (path : text) (docs_all : list Document)
    (loader : text -> W -> result (list Document)) (e : exn) (s : state W) :
  SUPPORTED_EXTENSIONS E !! snd (os_path_splitext (rt E) path) = Some loader ->
  loader path (world s) = Raise e ->
  file_load E path docs_all s = (Raise e, loaded path s).
Proof.
  intros Hsup Hload. unfold file_load. rewrite Hsup.
  destruct (decide _); unfold bind; now rewrite loader_load_result, Hload.
Qed.

(** C10. [recursive_file_check] hands every path that is not a
    directory, whether or not anything exists there, to [file_load];
    the path is skipped when its extension is unsupported, and when
    the extension is supported an exception of the loader comes out
    of [recursive_file_check]. *)
Theorem recursive_file_check_non_directory (depth : nat) (path : text)
    (docs_all : list Document) (s : state W) :
  os_path_isdir E path (world s) = false ->
  recursive_file_check E (S depth) path docs_all s = file_load E path docs_all s /\
  (SUPPORTED_EXTENSIONS E !! snd (os_path_splitext (rt E) path) = None ->
   recursive_file_check E (S depth) path docs_all s = (Ok docs_all, s)) /\
  (forall loader e,
     SUPPORTED_EXTENSIONS E !! snd (os_path_splitext (rt E) path) = Some loader ->
     loader path (world s) = Raise e ->
     recursive_file_check E (S depth) path docs_all s = (Raise e, loaded path s)).
Proof.
  intros Hdir.
  assert (Hstep : recursive_file_check E (S depth) path docs_all s
                  = file_load E path docs_all s).
  { simpl. unfold bind, query. now rewrite Hdir. }
  split; [exact Hstep|]. rewrite Hstep. split.
  - intros Hsup. unfold file_load. now rewrite Hsup.
  - intros loader e. apply file_load_loader_error.
Qed.

End FileLoading.

Lemma file_load_csv_one_document_witness :
  file_load (Sample.environment Sample.linux []) (str "data/t.csv") []
    (Sample.initial Sample.corpus) =
  (Ok [mkDocument (str "r1" ++ [10%N] ++ str "r2" ++ [10%N] ++ str "r3")
         {[ str "source" := VStr (str "data/t.csv") ]}],
   loaded (str "data/t.csv") (Sample.initial Sample.corpus)).
Proof.
  apply (file_load_csv_one_document (Sample.environment Sample.linux [])
           (str "data/t.csv") []
           (imap (fun i r => mkDocument r (<[ str "row" := VInt (Z.of_nat i) ]>
                                             {[ str "source" := VStr (str "data/t.csv") ]}))
                 [str "r1"; str "r2"; str "r3"])
           Sample.csv_loader).
  - reflexivity.
  - reflexivity.
  - reflexivity.
Defined.

Lemma file_load_unsupported_skipped_witness :
  file_load (Sample.environment Sample.linux []) (str "data/x.CSV") []
    (Sample.initial Sample.corpus) = (Ok [], Sample.initial Sample.corpus).
Proof.
  apply (file_load_unsupported_skipped (Sample.environment Sample.linux [])).
  apply not_elem_of_dom. reflexivity.
Defined.

Lemma recursive_file_check_non_directory_witness :
  recursive_file_check (Sample.environment Sample.linux []) 1 (str "data/ghost.bin") []
    (Sample.initial Sample.dangling) = (Ok [], Sample.initial Sample.dangling) /\
  recursive_file_check (Sample.environment Sample.linux []) 1 (str "data/ghost.txt") []
    (Sample.initial Sample.dangling) =
  (Raise (Sample.os_error "FileNotFoundError" (str "data/ghost.txt")),
   loaded (str "data/ghost.txt") (Sample.initial Sample.dangling)).
Proof.
  split.
  - apply (recursive_file_check_non_directory (Sample.environment Sample.linux []) 0
             (str "data/ghost.bin") [] (Sample.initial Sample.dangling));
      reflexivity.
  - apply (recursive_file_check_non_directory (Sample.environment Sample.linux []) 0
             (str "data/ghost.txt") [] (Sample.initial Sample.dangling))
      with (loader := Sample.text_loader); reflexivity.
Defined.

(** ** The loading phase *)

Section Loading.

Context {W Emb Db : Type}.
Variable E : env W Emb Db.

Lemma bind_inv {A B} (m : M W A) (f : A -> M W B) (s s' : state W) (r : result B) :
  bind m f s = (r, s') ->
  (exists a s1, m s = (Ok a, s1) /\ f a s1 = (r, s')) \/
  (exists e, m s = (Raise e, s') /\ r = Raise e).
Proof.
  unfold bind. destruct (m s) as [[a|e] s1]; intros H.
  - left. eauto.
  - right. injection H as <- <-. eauto.
Qed.

Lemma after_loads_refl (s : state W) : after_loads s s.
Proof.
  repeat split. exists []. split; [now rewrite app_nil_r | constructor].
Qed.

Lemma after_loads_trans (s1 s2 s3 : state W) :
  after_loads s1 s2 -> after_loads s2 s3 -> after_loads s1 s3.
Proof.
  intros (Hw1 & Hl1 & evs1 & Ht1 & Hf1) (Hw2 & Hl2 & evs2 & Ht2 & Hf2).
  repeat split; [congruence | congruence |].
  exists (evs1 ++ evs2). split.
  - rewrite Ht2, Ht1. now rewrite app_assoc.
  - now apply Forall_app.
Qed.

Lemma after_loads_loaded (path : text) (s : state W) : after_loads s (loaded path s).
Proof.
  repeat split. exists [EvLoadFile path]. split; [reflexivity|].
  repeat constructor.
Qed.

Lemma file_load_after_loads (path : text) (docs_all : list Document)
    (s s' : state W) (r : result (list Document)) :
  file_load E path docs_all s = (r, s') -> after_loads s s'.
Proof.
  unfold file_load.
  destruct (SUPPORTED_EXTENSIONS E !! _) as [loader|].
  - destruct (decide _); unfold bind; rewrite loader_load_result;
      destruct (loader path (world s)); intros H; injection H as _ <-;
      apply after_loads_loaded.
  - intros H. injection H as _ <-. apply after_loads_refl.
Qed.

Lemma for_each_after_loads {A B} (body : B -> A -> M W B) (xs : list A) :
  (forall acc x s s' r, body acc x s = (r, s') -> after_loads s s') ->
  forall acc s s' r, for_each body xs acc s = (r, s') -> after_loads s s'.
Proof.
  intros Hbody. induction xs as [|x xs IH]; intros acc s s' r; simpl.
  - intros H. injection H as _ <-. apply after_loads_refl.
  - intros H. apply bind_inv in H as [(acc' & s1 & H1 & H2)|(e & H1 & _)].
    + eapply after_loads_trans; [eapply Hbody, H1 | eapply IH, H2].
    + eapply Hbody, H1.
Qed.

Lemma recursive_file_check_after_loads (depth : nat) :
  forall path docs_all s s' r,
    recursive_file_check E depth path docs_all s = (r, s') -> after_loads s s'.
Proof.
  induction depth as [|depth IH]; intros path docs_all s s' r; simpl.
  - intros H. injection H as _ <-. apply after_loads_refl.
  - unfold bind at 1. unfold query.
    destruct (os_path_isdir E path (world s)).
    + unfold bind at 1. unfold read at 1.
      destruct (os_listdir E path (world s)) as [files|e].
      * apply for_each_after_loads. intros acc x s0 s0' r0. apply IH.
      * intros H. injection H as _ <-. apply after_loads_refl.
    + apply file_load_after_loads.
Qed.

(** The loop over [WEB_URL_LOAD_TARGETS]: when it completes, it has
    called the web loader on every URL in order and changed nothing
    else. *)
Lemma web_loop_ok (urls : list text) :
  forall acc s s' docs,
    for_each
      (fun web_docs_all web_url =>
         bind (emit (EvLoadWeb web_url)) (fun _ =>
         bind (read (WebBaseLoader_load E web_url)) (fun web_docs =>
         ret (web_docs_all ++ web_docs))))
      urls acc s = (Ok docs, s') ->
    world s' = world s /\ log s' = log s /\
    trace s' = trace s ++ map EvLoadWeb urls /\
    exists web_docs, docs = acc ++ web_docs.
Proof.
  induction urls as [|url urls IH]; intros acc s s' docs; simpl.
  - intros H. injection H as <- <-. rewrite app_nil_r.
    repeat split. exists []. now rewrite app_nil_r.
  - unfold bind at 1. unfold bind at 1. unfold emit at 1. unfold bind at 1.
    unfold read at 1. simpl.
    destruct (WebBaseLoader_load E url (world s)) as [web_docs|e]; [|discriminate].
    unfold ret at 1. intros H. apply IH in H as (Hw & Hl & Ht & more & ->).
    simpl in *. repeat split; try assumption.
    + rewrite Ht. now rewrite <- app_assoc.
    + exists (web_docs ++ more). now rewrite app_assoc.
Qed.

(** [load_data_sources]: files first, web pages after them. *)
Lemma load_data_sources_ok (s s' : state W) (docs : list Document) :
  load_data_sources E s = (Ok docs, s') ->
  world s' = world s /\ log s' = log s /\
  exists file_events docs_files docs_web,
    trace s' = trace s ++ file_events ++ map EvLoadWeb (WEB_URL_LOAD_TARGETS E) /\
    Forall is_load_file file_events /\
    docs = docs_files ++ docs_web /\
    fst (recursive_file_check E (recursion_limit (rt E)) (RAG_TOP_FOLDER_PATH E) [] s)
      = Ok docs_files.
Proof.
  unfold load_data_sources. intros H.
  apply bind_inv in H as [(docs_files & s1 & H1 & H2)|(e & _ & He)]; [|discriminate].
  apply bind_inv in H2 as [(docs_web & s2 & H2 & H3)|(e & _ & He)]; [|discriminate].
  injection H3 as <- <-.
  apply recursive_file_check_after_loads in H1 as Hloads.
  destruct Hloads as (Hw1 & Hl1 & evs & Ht1 & Hevs).
  apply web_loop_ok in H2 as (Hw2 & Hl2 & Ht2 & web_docs & ->).
  repeat split; [congruence | congruence |].
  exists evs, docs_files, web_docs. repeat split; try assumption.
  - rewrite Ht2, Ht1. now rewrite app_assoc.
  - now rewrite H1.
Qed.

End Loading.

(** ** process_rag *)

Section Orchestration.

Context {W Emb Db : Type}.
Variable E : env W Emb Db.

Lemma bind_assoc {A B C} (m : M W A) (f : A -> M W B) (g : B -> M W C) (s : state W) :
  bind (bind m f) g s = bind m (fun a => bind (f a) g) s.
Proof. unfold bind. now destruct (m s) as [[a|e] s1]. Qed.

Lemma bind_ret {A B} (a : A) (f : A -> M W B) (s : state W) :
  bind (ret a) f s = f a s.
Proof. reflexivity. Qed.

Lemma bind_emit {B} (ev : event) (f : unit -> M W B) (s : state W) :
  bind (emit ev) f s = f tt (emitted ev s).
Proof. reflexivity. Qed.

Lemma bind_logger {B} (lv : level) (msg : message) (f : unit -> M W B) (s : state W) :
  bind (logger lv msg) f s = f tt (logged (lv, msg) s).
Proof. reflexivity. Qed.

Lemma bind_call {A B} (g : W -> result A * W) (f : A -> M W B) (s : state W) :
  bind (call g) f s =
    match fst (g (world s)) with
    | Ok a => f a (with_world (snd (g (world s))) s)
    | Raise e => (Raise e, with_world (snd (g (world s))) s)
    end.
Proof. unfold bind, call. now destruct (g (world s)) as [[a|e] w]. Qed.

Lemma bind_read {A B} (g : W -> result A) (f : A -> M W B) (s : state W) :
  bind (read g) f s =
    match g (world s) with
    | Ok a => f a s
    | Raise e => (Raise e, s)
    end.
Proof. reflexivity. Qed.

Lemma bind_pure {A B} (r : result A) (f : A -> M W B) (s : state W) :
  bind (pure r) f s = match r with Ok a => f a s | Raise e => (Raise e, s) end.
Proof. reflexivity. Qed.

Lemma bind_query {B} (g : W -> bool) (f : bool -> M W B) (s : state W) :
  bind (query g) f s = f (g (world s)) s.
Proof. reflexivity. Qed.

(** Runs a sequence of calls symbolically, with one case for each
    outcome of each call. *)
Ltac crunch :=
  repeat first
    [ rewrite bind_assoc | rewrite bind_emit | rewrite bind_logger
    | rewrite bind_call | rewrite bind_read | rewrite bind_pure
    | rewrite bind_query | rewrite bind_ret
    | progress cbn [world log trace emitted logged with_world fst snd]
    | match goal with
      | |- context [match ?x with _ => _ end] =>
          tryif is_var x then fail else destruct x eqn:?
      end ].

Ltac finish :=
  unfold logger, ret; intros H; injection H as <- <-;
  cbn [world log trace emitted logged with_world fst snd];
  rewrite <- ?app_assoc; cbn [app]; cbv beta iota.

(** The statements before the [try], when they all succeed. *)
Lemma prepare_ok (p : text) (s s1 : state W) (emb : Emb) (chunks : list Document) :
  prepare E p s = (Ok (emb, chunks), s1) ->
  exists file_events docs_files docs_web docs sp,
    os_makedirs E p (world s) = (Ok tt, world s1) /\
    trace s1 = trace s ++ [EvMakedirs p] ++ file_events
                 ++ map EvLoadWeb (WEB_URL_LOAD_TARGETS E) ++ [EvOpenAIEmbeddings] /\
    Forall is_load_file file_events /\
    adjust_documents E (docs_files ++ docs_web) = Ok docs /\
    TextSplitter.create (CHUNK_SIZE E) (CHUNK_OVERLAP E) [10%N] = Ok sp /\
    TextSplitter.split_documents sp docs = Ok chunks /\
    log s1 = log s ++ [(INFO, MsgPersistDirectory p);
                       (INFO, MsgLoadedDocuments (length (docs_files ++ docs_web)));
                       (INFO, MsgSplittedDocuments (length chunks))].
Proof.
  unfold prepare. rewrite bind_emit, bind_call. cbn [world emitted].
  destruct (os_makedirs E p (world s)) as [[[]|e] w1] eqn:Hmk; cbn [fst snd];
    [|discriminate].
  rewrite bind_logger.
  match goal with |- bind _ _ ?s0 = _ -> _ => set (sA := s0) end.
  unfold bind at 1.
  destruct (load_data_sources E sA) as [[docs_loaded|e] s2] eqn:Hload; [|discriminate].
  apply load_data_sources_ok in Hload
    as (Hw & Hl & file_events & docs_files & docs_web & Ht & Hfe & -> & _).
  rewrite bind_logger, bind_pure.
  destruct (adjust_documents E _) as [docs|e] eqn:Hadj; [|discriminate].
  rewrite bind_emit, bind_read. cbn [world emitted logged].
  destruct (OpenAIEmbeddings E (world s2)) as [emb'|e] eqn:Hemb; [|discriminate].
  rewrite bind_pure.
  destruct (TextSplitter.create _ _ _) as [sp|e] eqn:Hsp; [|discriminate].
  rewrite bind_pure.
  destruct (TextSplitter.split_documents sp docs) as [chunks'|e] eqn:Hsplit;
    [|discriminate].
  rewrite bind_logger. unfold ret. intros H. injection H as <- <- <-.
  exists file_events, docs_files, docs_web, docs, sp.
  subst sA. cbn [world log trace emitted logged with_world] in *.
  repeat split; try assumption.
  - now rewrite Hw.
  - rewrite Ht. now rewrite <- !app_assoc.
  - rewrite Hl. now rewrite <- !app_assoc.
Qed.

(** Every outcome of the [try] block: the calls it issued, in order,
    and what it logged. *)
Lemma rebuild_store_effects (p : text) (emb : Emb) (chunks : list Document)
    (s s' : state W) (r : result (retriever Db)) :
  rebuild_store E p emb chunks s = (r, s') ->
  exists t infos,
    trace s' = trace s ++ t /\ log s' = log s ++ infos /\
    (if os_path_exists E p (world s)
     then t `prefix_of` rebuild_calls p chunks /\
          (exists t', t = EvRmtree p :: t') /\
          (fst (shutil_rmtree E p (world s)) = Ok tt ->
           exists t', t = EvRmtree p :: EvMakedirs p :: t')
     else t `prefix_of` build_calls p chunks) /\
    match r with
    | Raise e => Forall is_info infos
    | Ok found =>
        (if os_path_exists E p (world s)
         then t = rebuild_calls p chunks else t = build_calls p chunks) /\
        exists db, found = as_retriever db (SEARCH_K E)
    end.
Proof.
  unfold rebuild_store, clear_store, build_store, rebuild_calls, build_calls.
  destruct (os_path_exists E p (world s)) eqn:Hex; crunch; try congruence; finish;
    eexists _, _;
    (split; [first [reflexivity | symmetry; apply app_nil_r]|]);
    (split; [first [reflexivity | symmetry; apply app_nil_r]|]);
    repeat split; try (eexists; reflexivity);
    try (intros Hrm; first [congruence | eexists; reflexivity]);
    repeat constructor.
Qed.

(** The loop over the URLs, whatever its outcome: it has called the
    web loader on an initial part of the list, in order. *)
Lemma web_loop_effects (urls : list text) :
  forall acc s s' r,
    for_each
      (fun web_docs_all web_url =>
         bind (emit (EvLoadWeb web_url)) (fun _ =>
         bind (read (WebBaseLoader_load E web_url)) (fun web_docs =>
         ret (web_docs_all ++ web_docs))))
      urls acc s = (r, s') ->
    exists done,
      done `prefix_of` urls /\ trace s' = trace s ++ map EvLoadWeb done /\
      match r with Ok _ => done = urls | Raise _ => True end.
Proof.
  induction urls as [|url urls IH]; intros acc s s' r; cbn [for_each].
  - intros H. injection H as <- <-. exists []. rewrite app_nil_r. auto.
  - rewrite bind_assoc, bind_emit, bind_assoc, bind_read. cbn [world emitted].
    destruct (WebBaseLoader_load E url (world s)) as [web_docs|e].
    + rewrite bind_ret. intros H. apply IH in H as (done & Hpre & Ht & Hr).
      exists (url :: done). split; [now apply prefix_cons|].
      split; [rewrite Ht; cbn [trace emitted map]; now rewrite <- app_assoc|].
      destruct r; [now subst | exact I].
    + intros H. injection H as <- <-. exists [url].
      split; [apply prefix_cons, prefix_nil | auto].
Qed.

Lemma load_data_sources_effects (s s' : state W) (r : result (list Document)) :
  load_data_sources E s = (r, s') ->
  exists file_events done,
    Forall is_load_file file_events /\ done `prefix_of` WEB_URL_LOAD_TARGETS E /\
    trace s' = trace s ++ file_events ++ map EvLoadWeb done /\
    match r with Ok _ => done = WEB_URL_LOAD_TARGETS E | Raise _ => True end.
Proof.
  unfold load_data_sources. intros H.
  apply bind_inv in H as [(docs_files & s1 & H1 & H2)|(e & H1 & ->)];
    apply recursive_file_check_after_loads in H1 as (_ & _ & evs & Ht1 & Hevs).
  - apply bind_inv in H2 as [(docs_web & s2 & H2 & H3)|(e & H2 & ->)];
      apply web_loop_effects in H2 as (done & Hpre & Ht2 & Hdone).
    + injection H3 as <- <-. exists evs, done. rewrite Ht2, Ht1, <- app_assoc. auto.
    + exists evs, done. rewrite Ht2, Ht1, <- app_assoc. auto.
  - exists evs, []. rewrite app_nil_r.
    split; [exact Hevs|]. split; [apply prefix_nil|auto].
Qed.

Lemma prefix_prepare_calls (p : text) (file_events : list event) (done : list text) :
  done `prefix_of` WEB_URL_LOAD_TARGETS E ->
  ([EvMakedirs p] ++ file_events ++ map EvLoadWeb done)
    `prefix_of` prepare_calls E p file_events.
Proof.
  intros [k Hk]. unfold prepare_calls. rewrite Hk, map_app.
  exists (map EvLoadWeb k ++ [EvOpenAIEmbeddings]).
  now rewrite <- !app_assoc.
Qed.

(** The statements before the [try], whatever their outcome. *)
Lemma prepare_effects (p : text) (s s1 : state W) (r : result (Emb * list Document)) :
  prepare E p s = (r, s1) ->
  exists file_events t,
    Forall is_load_file file_events /\
    trace s1 = trace s ++ t /\
    t `prefix_of` prepare_calls E p file_events.
Proof.
  unfold prepare. rewrite bind_emit, bind_call. cbn [world emitted].
  destruct (os_makedirs E p (world s)) as [[[]|e] w1] eqn:Hmk; cbn [fst snd].
  2: { intros H. injection H as _ <-. exists [], [EvMakedirs p].
       split; [constructor|]. split; [reflexivity|].
       apply (prefix_prepare_calls p [] []), prefix_nil. }
  rewrite bind_logger.
  match goal with |- bind _ _ ?s0 = _ -> _ => set (sA := s0) end.
  unfold bind at 1.
  destruct (load_data_sources E sA) as [[docs_loaded|e] s2] eqn:Hload;
    apply load_data_sources_effects in Hload
      as (file_events & done & Hfe & Hpre & Ht & Hdone);
    subst sA; cbn [world log trace emitted logged with_world] in Ht.
  2: { intros H. injection H as _ <-.
       exists file_events, ([EvMakedirs p] ++ file_events ++ map EvLoadWeb done).
       split; [exact Hfe|]. split; [rewrite Ht; now rewrite <- !app_assoc|].
       now apply prefix_prepare_calls. }
  subst done. rewrite bind_logger, bind_pure.
  destruct (adjust_documents E docs_loaded) as [docs|e].
  2: { intros H. injection H as _ <-.
       exists file_events,
         ([EvMakedirs p] ++ file_events ++ map EvLoadWeb (WEB_URL_LOAD_TARGETS E)).
       split; [exact Hfe|]. split; [cbn [trace logged]; rewrite Ht; now rewrite <- !app_assoc|].
       now apply prefix_prepare_calls. }
  rewrite bind_emit. intros H. exists file_events, (prepare_calls E p file_events).
  split; [exact Hfe|]. split; [|reflexivity].
  revert H. crunch; finish; rewrite Ht; unfold prepare_calls; now rewrite <- !app_assoc.
Qed.

(** C8. When the statements before the [try] have succeeded and a call
    of the [try] block raises [e], [process_rag] raises the same [e];
    it has logged one error record, which carries the message of [e],
    after the records of the block, which are informational; and the
    calls issued since the block was entered are an initial part of
    its sequence, none of them issued twice. *)
Theorem process_rag_failure_logged_reraised (p : text) (s s1 s2 : state W)
    (emb : Emb) (chunks : list Document) (e : exn) :
  prepare E p s = (Ok (emb, chunks), s1) ->
  rebuild_store E p emb chunks s1 = (Raise e, s2) ->
  process_rag E p s =
    (Raise e, logged (ERROR, MsgStoreCreationError (exn_msg e)) s2) /\
  exists t infos,
    trace s2 = trace s1 ++ t /\
    (t `prefix_of` rebuild_calls p chunks \/ t `prefix_of` build_calls p chunks) /\
    log s2 = log s1 ++ infos /\ Forall is_info infos.
Proof.
  intros Hprep Hstore. split.
  - unfold process_rag, bind. rewrite Hprep. unfold try_except. cbn [fst snd].
    rewrite Hstore. reflexivity.
  - apply rebuild_store_effects in Hstore as (t & infos & Ht & Hl & Hpre & Hinfo).
    exists t, infos. repeat split; try assumption.
    destruct (os_path_exists E p (world s1)); [left; apply Hpre | right; exact Hpre].
Qed.

(** Run as a script, the module wraps [process_rag] in a handler of its
    own: an exception that [process_rag] raised again is logged once
    more there and raised again. *)
Lemma main_failure_logged_reraised (s s2 : state W) (w1 : W) (e : exn) :
  os_makedirs E (LOG_DIR_PATH E) (world s) = (Ok tt, w1) ->
  process_rag E (CHROMA_DB_DIR E)
    (with_world w1 (emitted (EvMakedirs (LOG_DIR_PATH E)) s)) = (Raise e, s2) ->
  main E s = (Raise e, logged (ERROR, MsgRagError (exn_msg e)) s2).
Proof.
  intros Hmk Hrun. unfold main. rewrite bind_emit, bind_call.
  cbn [world emitted]. rewrite Hmk. cbn [fst snd].
  unfold try_except, bind at 1. rewrite Hrun. reflexivity.
Qed.

(** C2 as amended. Whenever the statements before the [try] have
    succeeded, [process_rag] calls [shutil.rmtree] on the persistence
    directory as the first call of the [try] block, whatever the
    directory holds, and [os.makedirs] right after it if the removal
    succeeded; the [try] block skips the removal only when the
    directory does not exist as the block is entered. *)
Theorem process_rag_always_clears (p : text) :
  (makedirs_creates E ->
   forall s s1 emb chunks,
     prepare E p s = (Ok (emb, chunks), s1) ->
     exists t,
       trace (snd (process_rag E p s)) = trace s1 ++ EvRmtree p :: t /\
       (fst (shutil_rmtree E p (world s1)) = Ok tt ->
        exists t', t = EvMakedirs p :: t')) /\
  (forall s emb chunks,
     os_path_exists E p (world s) = false ->
     exists t,
       trace (snd (rebuild_store E p emb chunks s)) = trace s ++ t /\
       t `prefix_of` build_calls p chunks).
Proof.
  split.
  - intros Hmk s s1 emb chunks Hprep.
    apply prepare_ok in Hprep as Hfacts.
    destruct Hfacts as (_ & _ & _ & _ & _ & Hmade & _).
    apply Hmk in Hmade.
    unfold process_rag, bind. rewrite Hprep. unfold try_except. cbn [fst snd].
    destruct (rebuild_store E p emb chunks s1) as [r s2] eqn:Hstore.
    apply rebuild_store_effects in Hstore as (t & infos & Ht & _ & Hpre & _).
    rewrite Hmade in Hpre. destruct Hpre as (_ & [t' ->] & Hrecreated).
    exists t'. split.
    + destruct r as [found|e]; [exact Ht|].
      unfold log_and_reraise. rewrite bind_logger. exact Ht.
    + intros Hrm. destruct (Hrecreated Hrm) as [t'' Heq].
      injection Heq as ->. now exists t''.
  - intros s emb chunks Hex.
    destruct (rebuild_store E p emb chunks s) as [r s'] eqn:Hstore.
    apply rebuild_store_effects in Hstore as (t & infos & Ht & _ & Hpre & _).
    rewrite Hex in Hpre. exists t. now split.
Qed.

End Orchestration.

(** The sample file system creates what [os.makedirs] is asked for. *)
Lemma sample_makedirs_creates (r : runtime) (urls : list text)
    (store : list Document -> unit -> text -> Sample.fs
             -> result (list Document) * Sample.fs) :
  makedirs_creates (Sample.environment_with r urls store).
Proof.
  intros p w w'. simpl. unfold Sample.makedirs, Sample.exists_.
  destruct (Sample.isdir p w) eqn:Hdir.
  - intros H. injection H as <-. now rewrite Hdir.
  - destruct (Sample.isfile p w); [discriminate|].
    intros H. injection H as <-.
    unfold Sample.isdir. simpl.
    destruct (decide (p = p)) as [_|Hne]; [reflexivity | now destruct Hne].
Qed.


Lemma process_rag_failure_logged_reraised_witness :
  fst (process_rag (Sample.environment_with Sample.linux [] Sample.failing_store)
         (str "chroma_db") (Sample.initial Sample.corpus)) = Raise Sample.rate_limit /\
  List.filter (fun record => match fst record with ERROR => true | INFO => false end)
    (log (snd (process_rag (Sample.environment_with Sample.linux [] Sample.failing_store)
                 (str "chroma_db") (Sample.initial Sample.corpus)))) =
    [(ERROR, MsgStoreCreationError (str "quota exceeded"))].
Proof.
  pose (E0 := Sample.environment_with Sample.linux [] Sample.failing_store).
  pose (prepared := prepare E0 (str "chroma_db") (Sample.initial Sample.corpus)).
  pose (chunks := match fst prepared with Ok (_, c) => c | Raise _ => [] end).
  pose (failed := rebuild_store E0 (str "chroma_db") tt chunks (snd prepared)).
  assert (Hprep : prepared = (Ok (tt, chunks), snd prepared)) by (vm_compute; reflexivity).
  assert (Hstore : failed = (Raise Sample.rate_limit, snd failed))
    by (vm_compute; reflexivity).
  destruct (process_rag_failure_logged_reraised E0 (str "chroma_db")
              (Sample.initial Sample.corpus) (snd prepared) (snd failed)
              tt chunks Sample.rate_limit Hprep Hstore) as [Hrun _].
  fold E0. rewrite Hrun. split; [reflexivity | vm_compute; reflexivity].
Defined.

(** An index directory that exists and is empty is removed and created
    again all the same: the removal does not depend on index data. *)
Lemma process_rag_clears_empty_directory :
  Sample.listdir (str "chroma_db") Sample.corpus_with_empty_store = Ok [] /\
  In (EvRmtree (str "chroma_db"))
     (trace (snd (process_rag (Sample.environment Sample.linux [])
                    (str "chroma_db")
                    (Sample.initial Sample.corpus_with_empty_store)))) /\
  Sample.isfile (Sample.chroma_file (str "chroma_db")) Sample.corpus = false /\
  In (EvRmtree (str "chroma_db"))
     (trace (snd (process_rag (Sample.environment Sample.linux [])
                    (str "chroma_db") (Sample.initial Sample.corpus)))).
Proof.
  split; [reflexivity|]. split; [|split; [reflexivity|]].
  - vm_compute. do 4 right. now left.
  - vm_compute. do 4 right. now left.
Qed.

Lemma process_rag_always_clears_witness :
  (exists t,
     trace (snd (process_rag (Sample.environment Sample.linux []) (str "chroma_db")
                   (Sample.initial Sample.corpus_with_empty_store))) =
       trace (snd (prepare (Sample.environment Sample.linux []) (str "chroma_db")
                     (Sample.initial Sample.corpus_with_empty_store)))
         ++ EvRmtree (str "chroma_db") :: t /\
     exists t', t = EvMakedirs (str "chroma_db") :: t') /\
  (exists t,
     trace (snd (rebuild_store (Sample.environment Sample.linux []) (str "chroma_db")
                   tt [] (Sample.initial Sample.corpus))) = [] ++ t /\
     t `prefix_of` build_calls (str "chroma_db") []).
Proof.
  pose (E0 := Sample.environment Sample.linux []).
  pose (prepared := prepare E0 (str "chroma_db")
                      (Sample.initial Sample.corpus_with_empty_store)).
  pose (chunks := match fst prepared with Ok (_, c) => c | Raise _ => [] end).
  assert (Hprep : prepared = (Ok (tt, chunks), snd prepared)) by (vm_compute; reflexivity).
  destruct (process_rag_always_clears E0 (str "chroma_db")) as [Hclears Hskips].
  split.
  - destruct (Hclears (sample_makedirs_creates _ _ _) _ _ _ _ Hprep) as (t & Ht & Hmk).
    exists t. split; [exact Ht|]. apply Hmk. vm_compute. reflexivity.
  - apply (Hskips (Sample.initial Sample.corpus) tt []). reflexivity.
Defined.

(** ** Strings *)

Lemma lstrip_length (s : text) : (length (Py.lstrip s) <= length s)%nat.
Proof.
  induction s as [|c s IH]; simpl; [lia|].
  destruct (Py.isspace c); simpl; lia.
Qed.

Lemma strip_length (s : text) : Py.len (Py.strip s) <= Py.len s.
Proof.
  unfold Py.len, Py.strip, Py.rstrip. rewrite List.length_rev.
  pose proof (lstrip_length (rev (Py.lstrip s))) as H1.
  rewrite List.length_rev in H1.
  pose proof (lstrip_length s). lia.
Qed.

Lemma has_nonspace_app (s1 s2 : text) :
  Py.has_nonspace (s1 ++ s2) = Py.has_nonspace s1 || Py.has_nonspace s2.
Proof. apply existsb_app. Qed.

Lemma has_nonspace_rev (s : text) : Py.has_nonspace (rev s) = Py.has_nonspace s.
Proof.
  induction s as [|c s IH]; [reflexivity|].
  simpl rev. rewrite has_nonspace_app, IH. simpl.
  now rewrite orb_false_r, orb_comm.
Qed.

Lemma has_nonspace_lstrip (s : text) :
  Py.has_nonspace (Py.lstrip s) = Py.has_nonspace s.
Proof.
  induction s as [|c s IH]; [reflexivity|].
  simpl. destruct (Py.isspace c) eqn:Hc; [|simpl; now rewrite Hc].
  now rewrite IH.
Qed.

Lemma has_nonspace_strip (s : text) :
  Py.has_nonspace (Py.strip s) = Py.has_nonspace s.
Proof.
  unfold Py.strip, Py.rstrip.
  now rewrite has_nonspace_rev, has_nonspace_lstrip, has_nonspace_rev,
    has_nonspace_lstrip.
Qed.

Lemma has_nonspace_join (sep : text) (parts : list text) :
  Exists (fun p => Py.has_nonspace p = true) parts ->
  Py.has_nonspace (Py.join sep parts) = true.
Proof.
  induction parts as [|p rest IH]; intros H; [inversion H|].
  destruct rest as [|q rest].
  - inversion H as [? ? Hp|? ? Hrest]; subst; [exact Hp | inversion Hrest].
  - change (Py.join sep (p :: q :: rest)) with (p ++ sep ++ Py.join sep (q :: rest)).
    rewrite !has_nonspace_app.
    inversion H as [? ? Hp|? ? Hrest]; subst.
    + now rewrite Hp.
    + rewrite (IH Hrest). now rewrite !orb_true_r.
Qed.

Lemma join_length (sep : text) (parts : list text) :
  Py.len (Py.join sep parts) = TextSplitter.joined_len (Py.len sep) parts.
Proof.
  induction parts as [|p rest IH]; [reflexivity|].
  destruct rest as [|q rest].
  - simpl. lia.
  - change (Py.join sep (p :: q :: rest)) with (p ++ sep ++ Py.join sep (q :: rest)).
    change (TextSplitter.joined_len (Py.len sep) (p :: q :: rest))
      with (Py.len p + (Py.len sep + TextSplitter.joined_len (Py.len sep) (q :: rest))).
    rewrite <- IH. unfold Py.len. rewrite !length_app. lia.
Qed.

(** ** The character splitter *)

Module SplitterFacts.
Import TextSplitter.

Lemma joined_len_snoc (sl : Z) (cur : list text) (d : text) :
  joined_len sl (cur ++ [d]) = joined_len sl cur + Py.len d + sep_if_more 0 cur sl.
Proof.
  induction cur as [|p rest IH]; [simpl; unfold sep_if_more; simpl; lia|].
  destruct rest as [|q rest].
  - simpl. unfold sep_if_more. simpl. lia.
  - change (joined_len sl ((p :: q :: rest) ++ [d]))
      with (Py.len p + (sl + joined_len sl ((q :: rest) ++ [d]))).
    rewrite IH.
    change (joined_len sl (p :: q :: rest))
      with (Py.len p + (sl + joined_len sl (q :: rest))).
    unfold sep_if_more. simpl. lia.
Qed.

Lemma sep_if_more_snoc (sl : Z) (cur : list text) (d : text) :
  sep_if_more 1 (cur ++ [d]) sl = sep_if_more 0 cur sl.
Proof.
  unfold sep_if_more. rewrite length_app. simpl.
  destruct cur; simpl; [reflexivity|].
  destruct (_ <? _)%nat eqn:H; [reflexivity|].
  apply Nat.ltb_ge in H. lia.
Qed.

Lemma joined_len_pos (sl : Z) (cur : list text) :
  0 <= sl -> Forall (fun p => nonempty p = true) cur -> cur <> [] ->
  0 < joined_len sl cur.
Proof.
  intros Hsl Hne Hcur. destruct cur as [|p rest]; [congruence|].
  inversion Hne as [|? ? Hp Hrest]; subst.
  assert (0 < Py.len p) by (destruct p; [discriminate | unfold Py.len; cbn [length]; lia]).
  assert (Hnn : forall l, 0 <= joined_len sl l).
  { induction l as [|a [|b l] IH]; cbn [joined_len] in *; unfold Py.len in *; lia. }
  cbn [joined_len]. destruct rest as [|q rest]; [lia|]. specialize (Hnn (q :: rest)). lia.
Qed.

Lemma drop_front_eq (sp : t) (sl l : Z) (cur : list text) (total : Z) :
  drop_front sp sl l cur total =
    if (chunk_overlap sp <? total)
       || ((chunk_size sp <? total + l + sep_if_more 0 cur sl) && (0 <? total))
    then
      match cur with
      | [] => Raise index_error
      | first :: rest =>
          drop_front sp sl l rest (total - (Py.len first + sep_if_more 1 cur sl))
      end
    else Ok (cur, total).
Proof. destruct cur; reflexivity. Qed.

(** The inner loop stops without an error on a state whose [total] is
    the joined length; it leaves a tail of [current_doc] which is
    empty or leaves room for the next piece. *)
Lemma drop_front_spec (sp : t) (sl l : Z) :
  0 <= chunk_overlap sp -> 0 <= sl ->
  forall cur total,
    total = joined_len sl cur ->
    Forall (fun p => nonempty p = true) cur ->
    exists cur',
      drop_front sp sl l cur total = Ok (cur', joined_len sl cur') /\
      cur' `suffix_of` cur /\
      (cur' = [] \/ joined_len sl cur' + l + sl <= chunk_size sp).
Proof.
  intros Hov Hsl. induction cur as [|first rest IH]; intros total Htot Hne.
  - rewrite drop_front_eq. subst total. simpl joined_len.
    replace (chunk_overlap sp <? 0) with false by (symmetry; apply Z.ltb_ge; lia).
    rewrite andb_false_r. simpl. exists []. repeat split; auto.
  - rewrite drop_front_eq.
    destruct (_ || _) eqn:Hcond.
    + inversion Hne as [|? ? Hfirst Hrest]; subst.
      destruct (IH (joined_len sl (first :: rest)
                    - (Py.len first + sep_if_more 1 (first :: rest) sl)))
        as (cur' & Hrun & Hsuf & Hroom); [|exact Hrest|].
      * unfold sep_if_more. destruct rest; cbn [joined_len length Nat.ltb Nat.leb]. all: lia.
      * exists cur'. repeat split; [exact Hrun | now apply suffix_cons_r | exact Hroom].
    + exists (first :: rest). subst total. repeat split; [reflexivity|].
      right. apply orb_false_iff in Hcond as [_ Hcond].
      pose proof (joined_len_pos sl (first :: rest) Hsl Hne ltac:(discriminate)) as Hpos.
      apply andb_false_iff in Hcond as [Hcond|Hcond].
      * apply Z.ltb_ge in Hcond. unfold sep_if_more in Hcond. cbn [length Nat.ltb Nat.leb] in Hcond. lia.
      * apply Z.ltb_ge in Hcond. lia.
Qed.

Lemma sep_if_more_le (n : nat) (cur : list text) (sl : Z) :
  0 <= sl -> 0 <= sep_if_more n cur sl <= sl.
Proof. intros H. unfold sep_if_more. destruct (_ <? _)%nat; lia. Qed.

Lemma len_nonneg {A} (l : list A) : 0 <= Py.len l.
Proof. unfold Py.len. lia. Qed.

(** One iteration of the loop over the pieces. *)
Lemma merge_step_spec (sp : t) (sep : text) (st : merge_state) (d : text) :
  0 <= chunk_overlap sp -> coherent sep st -> nonempty d = true ->
  exists cur' emitted,
    merge_step sp sep st d =
      Ok {| docs := docs st ++ emitted;
            current_doc := cur' ++ [d];
            total := joined_len (Py.len sep) (cur' ++ [d]) |} /\
    cur' `suffix_of` current_doc st /\
    ((emitted = [] /\ cur' = current_doc st /\
      joined_len (Py.len sep) (cur' ++ [d]) <= chunk_size sp) \/
     (emitted = [] /\ current_doc st = [] /\ cur' = []) \/
     (current_doc st <> [] /\
      emitted = option_list (_join_docs (current_doc st) sep) /\
      (cur' = [] \/ joined_len (Py.len sep) (cur' ++ [d]) <= chunk_size sp))).
Proof.
  intros Hov [Htot Hne] Hd. unfold merge_step.
  pose proof (len_nonneg sep) as Hsl.
  destruct (chunk_size sp <? _) eqn:Hc.
  - destruct (current_doc st) as [|c0 cs] eqn:Hcur.
    + exists [], []. rewrite Hcur, app_nil_r. repeat split; auto.
      * do 2 f_equal. rewrite Htot. unfold sep_if_more. simpl. lia.
    + destruct (drop_front_spec sp (Py.len sep) (Py.len d) Hov Hsl
                  (c0 :: cs) (total st) Htot Hne) as (cur' & Hrun & Hsuf & Hroom).
      rewrite Hrun. cbn [docs current_doc total].
      exists cur', (option_list (_join_docs (c0 :: cs) sep)).
      repeat split; auto.
      * f_equal. f_equal.
        -- destruct (_join_docs (c0 :: cs) sep); [reflexivity|].
           simpl. now rewrite app_nil_r.
        -- rewrite joined_len_snoc, sep_if_more_snoc. lia.
      * right. right. repeat split; [discriminate|].
        destruct Hroom as [->|Hroom]; [now left|right].
        rewrite joined_len_snoc.
        pose proof (sep_if_more_le 0 cur' (Py.len sep) Hsl). lia.
  - exists (current_doc st), []. rewrite app_nil_r.
    apply Z.ltb_ge in Hc. rewrite joined_len_snoc, sep_if_more_snoc, <- Htot.
    split; [|split; [reflexivity|]].
    + do 2 f_equal. lia.
    + left. repeat split. lia.
Qed.

Lemma coherent_initial (sep : text) :
  coherent sep {| docs := []; current_doc := []; total := 0 |}.
Proof. split; [reflexivity | constructor]. Qed.

Lemma join_docs_some (cur : list text) (sep doc : text) :
  _join_docs cur sep = Some doc -> doc = Py.strip (Py.join sep cur).
Proof.
  unfold _join_docs. destruct (Py.strip _); [discriminate|]. now intros [= <-].
Qed.

Lemma join_docs_length (cur : list text) (sep doc : text) :
  _join_docs cur sep = Some doc -> Py.len doc <= joined_len (Py.len sep) cur.
Proof.
  intros ->%join_docs_some. rewrite <- join_length. apply strip_length.
Qed.

Lemma join_docs_nonspace (cur : list text) (sep : text) :
  Exists (fun p => Py.has_nonspace p = true) cur ->
  exists doc, _join_docs cur sep = Some doc.
Proof.
  intros H. apply (has_nonspace_join sep) in H.
  rewrite <- has_nonspace_strip in H. unfold _join_docs.
  destruct (Py.strip _) as [|c doc]; [discriminate | eauto].
Qed.

Lemma Forall_suffix {A} (P : A -> Prop) (l1 l2 : list A) :
  l1 `suffix_of` l2 -> Forall P l2 -> Forall P l1.
Proof. intros [k ->] H. now apply Forall_app in H as [_ H]. Qed.

Lemma coherent_step (sep : text) (st : merge_state) (cur' : list text) (d : text)
    (emitted : list text) :
  coherent sep st -> cur' `suffix_of` current_doc st -> nonempty d = true ->
  coherent sep {| docs := docs st ++ emitted; current_doc := cur' ++ [d];
                  total := joined_len (Py.len sep) (cur' ++ [d]) |}.
Proof.
  intros [_ Hne] Hsuf Hd. split; [reflexivity|]. cbn [current_doc].
  apply Forall_app. split; [eapply Forall_suffix; eauto | now constructor].
Qed.

(** The loop neither fails nor lets [total] or a chunk exceed the
    chunk size when every piece fits. *)
Lemma merge_loop_fits (sp : t) (sep : text) (splits : list text) :
  0 <= chunk_overlap sp ->
  Forall (fun p => nonempty p = true) splits ->
  Forall (fun p => Py.len p <= chunk_size sp) splits ->
  forall st,
    coherent sep st -> total st <= chunk_size sp ->
    Forall (fun c => Py.len c <= chunk_size sp) (docs st) ->
    exists st',
      merge_loop sp sep splits st = Ok st' /\ coherent sep st' /\
      total st' <= chunk_size sp /\
      Forall (fun c => Py.len c <= chunk_size sp) (docs st').
Proof.
  intros Hov Hne Hfit. induction splits as [|d splits IH]; intros st Hco Htot Hdocs.
  - exists st. auto.
  - inversion Hne as [|? ? Hd Hne']; subst. inversion Hfit as [|? ? Hdfit Hfit']; subst.
    destruct (merge_step_spec sp sep st d Hov Hco Hd)
      as (cur' & emitted & Hstep & Hsuf & Hcases).
    cbn [merge_loop]. rewrite Hstep.
    apply IH; try assumption.
    + now apply coherent_step.
    + cbn [total]. destruct Hcases as [(_ & _ & H)|[(_ & _ & ->)|(_ & _ & [->|H])]];
        try exact H; simpl; lia.
    + cbn [docs]. apply Forall_app. split; [exact Hdocs|].
      destruct Hcases as [(-> & _)|[(-> & _)|(_ & -> & _)]]; try constructor.
      destruct (_join_docs (current_doc st) sep) as [doc|] eqn:Hj; simpl;
        constructor; [|constructor].
      apply join_docs_length in Hj. destruct Hco as [Hco _]. lia.
Qed.

Lemma merge_splits_fits (sp : t) (sep : text) (splits : list text) :
  0 <= chunk_overlap sp -> 0 <= chunk_size sp ->
  Forall (fun p => nonempty p = true) splits ->
  Forall (fun p => Py.len p <= chunk_size sp) splits ->
  exists chunks,
    _merge_splits sp splits sep = Ok chunks /\
    Forall (fun c => Py.len c <= chunk_size sp) chunks.
Proof.
  intros Hov Hsize Hne Hfit. unfold _merge_splits.
  destruct (merge_loop_fits sp sep splits Hov Hne Hfit
              {| docs := []; current_doc := []; total := 0 |})
    as (st & -> & [Hco _] & Htot & Hdocs);
    [apply coherent_initial | exact Hsize | constructor |].
  destruct (_join_docs (current_doc st) sep) as [doc|] eqn:Hj; eexists;
    (split; [reflexivity|]); [|exact Hdocs].
  apply Forall_app. split; [exact Hdocs|]. constructor; [|constructor].
  apply join_docs_length in Hj. lia.
Qed.

(** The loop does not fail; once a piece with a character other than
    white space was seen, a chunk was emitted or such a piece is still
    in [current_doc]. *)
Lemma merge_loop_keeps_text (sp : t) (sep : text) (splits : list text) :
  0 <= chunk_overlap sp ->
  Forall (fun p => nonempty p = true) splits ->
  forall st seen,
    coherent sep st ->
    (docs st <> [] \/
     (Exists (fun p => Py.has_nonspace p = true) seen ->
      Exists (fun p => Py.has_nonspace p = true) (current_doc st))) ->
    exists st',
      merge_loop sp sep splits st = Ok st' /\
      (docs st' <> [] \/
       (Exists (fun p => Py.has_nonspace p = true) (seen ++ splits) ->
        Exists (fun p => Py.has_nonspace p = true) (current_doc st'))).
Proof.
  intros Hov Hne. induction splits as [|d splits IH]; intros st seen Hco Hinv.
  - exists st. rewrite app_nil_r. auto.
  - inversion Hne as [|? ? Hd Hne']; subst.
    destruct (merge_step_spec sp sep st d Hov Hco Hd)
      as (cur' & emitted & Hstep & Hsuf & Hcases).
    cbn [merge_loop]. rewrite Hstep.
    replace (seen ++ d :: splits) with ((seen ++ [d]) ++ splits)
      by now rewrite <- app_assoc.
    apply IH; [exact Hne' | now apply coherent_step |].
    cbn [docs current_doc].
    destruct Hinv as [Hdocs|Hinv].
    { left. destruct (docs st); [congruence | discriminate]. }
    assert (Hlast : Exists (fun p => Py.has_nonspace p = true) [d] ->
                    Exists (fun p => Py.has_nonspace p = true) (cur' ++ [d]))
      by (intros H; apply Exists_app; now right).
    destruct Hcases as [(_ & -> & _)|[(_ & Hcur & ->)|(_ & -> & _)]].
    + right. intros [H|H]%Exists_app; [|now apply Hlast].
      apply Exists_app. left. now apply Hinv.
    + right. intros [H|H]%Exists_app; [|now apply Hlast].
      apply Hinv in H. rewrite Hcur in H. inversion H.
    + destruct (_join_docs (current_doc st) sep) as [doc|] eqn:Hj.
      * left. destruct (docs st); discriminate.
      * right. intros [H|H]%Exists_app; [|now apply Hlast].
        apply Hinv in H. apply (join_docs_nonspace _ sep) in H as [doc Hdoc].
        congruence.
Qed.

Lemma merge_splits_keeps_text (sp : t) (sep : text) (splits : list text) :
  0 <= chunk_overlap sp ->
  Forall (fun p => nonempty p = true) splits ->
  Exists (fun p => Py.has_nonspace p = true) splits ->
  exists chunk chunks, _merge_splits sp splits sep = Ok (chunk :: chunks).
Proof.
  intros Hov Hne Hink. unfold _merge_splits.
  destruct (merge_loop_keeps_text sp sep splits Hov Hne
              {| docs := []; current_doc := []; total := 0 |} [])
    as (st & -> & Hinv); [apply coherent_initial | now right |].
  destruct Hinv as [Hdocs|Hinv].
  - destruct (docs st) as [|c cs] eqn:Hd; [congruence|].
    destruct (_join_docs (current_doc st) sep); simpl; eauto.
  - apply Hinv in Hink. apply (join_docs_nonspace _ sep) in Hink as [doc ->].
    destruct (docs st); simpl; eauto.
Qed.

(** Splitting on the newline leaves a character that is not white
    space in one of the pieces. *)
Lemma re_split_keeps_text (s : text) :
  forall cur,
    Py.has_nonspace (rev cur ++ s) = true ->
    Exists (fun p => Py.has_nonspace p = true) (re_split_from [10%N] s O cur).
Proof.
  induction s as [|c s IH]; intros cur H.
  - rewrite app_nil_r in H. simpl. now constructor.
  - cbn [re_split_from Py.startswith]. rewrite andb_true_r.
    destruct (N.eqb_spec 10 c) as [<-|Hc].
    + rewrite has_nonspace_app in H. simpl in H.
      apply orb_true_iff in H as [H|H].
      * now constructor.
      * apply Exists_cons_tl. apply IH. exact H.
    + apply IH. simpl rev. now rewrite <- app_assoc.
Qed.

Lemma split_text_with_regex_nonempty (s sep : text) :
  Forall (fun p => nonempty p = true) (_split_text_with_regex s sep).
Proof.
  unfold _split_text_with_regex. apply Forall_forall. intros p Hp.
  apply list_elem_of_filter in Hp as [Hp _]. exact Hp.
Qed.

Lemma split_text_with_regex_keeps_text (s : text) :
  Py.has_nonspace s = true ->
  Exists (fun p => Py.has_nonspace p = true) (_split_text_with_regex s [10%N]).
Proof.
  intros H. unfold _split_text_with_regex, re_split.
  apply (re_split_keeps_text s []) in H.
  apply Exists_exists in H as (p & Hp & Hink).
  apply Exists_exists. exists p. split; [|exact Hink].
  apply list_elem_of_filter. split; [|exact Hp].
  destruct p; [discriminate | reflexivity].
Qed.

Lemma create_bounds (size overlap : Z) (sep : text) (sp : t) :
  create size overlap sep = Ok sp ->
  chunk_size sp = size /\ chunk_overlap sp = overlap /\ separator sp = sep /\
  0 < size /\ 0 <= overlap <= size.
Proof.
  unfold create.
  destruct (Z.leb_spec size 0); [discriminate|].
  destruct (Z.ltb_spec overlap 0); [discriminate|].
  destruct (Z.ltb_spec size overlap); [discriminate|].
  intros [= <-]. simpl. repeat split; lia.
Qed.
End SplitterFacts.

Import TextSplitter SplitterFacts.

(** A long line comes out as one chunk longer than the chunk size. *)
Lemma long_line_exceeds_chunk_size :
  let sp := {| chunk_size := 500; chunk_overlap := 50; separator := [10%N] |} in
  let doc := mkDocument (repeat 97%N 501) {[ str "source" := VStr (str "data/a.txt") ]} in
  create 500 50 [10%N] = Ok sp /\
  split_documents sp [doc] = Ok [doc] /\
  500 < Py.len (page_content doc).
Proof. repeat split; vm_compute; reflexivity. Qed.

(** C6 as amended. With a splitter made for [size] and [overlap], when
    every piece between separators of every document is at most [size]
    long, the split succeeds and every chunk is at most [size] long. *)
Theorem chunks_fit_when_pieces_fit (size overlap : Z) (sep : text) (sp : t)
    (documents : list Document) :
  create size overlap sep = Ok sp ->
  Forall (fun doc => pieces_fit sp (page_content doc)) documents ->
  exists chunks,
    split_documents sp documents = Ok chunks /\
    Forall (fun chunk => Py.len (page_content chunk) <= size) chunks.
Proof.
  intros (Hsize & Hov & Hsep & Hpos & Hrange)%create_bounds Hfit.
  unfold split_documents. induction Hfit as [|doc documents Hdoc _ IH].
  - exists []. split; [reflexivity | constructor].
  - destruct IH as (rest & Hrest & Hrest_fit).
    destruct (merge_splits_fits sp (separator sp)
                (_split_text_with_regex (page_content doc) (separator sp)))
      as (pieces & Hpieces & Hpieces_fit);
      [lia | lia | apply split_text_with_regex_nonempty | exact Hdoc |].
    cbn [create_documents]. unfold split_text. rewrite Hpieces, Hrest.
    eexists. split; [reflexivity|].
    apply Forall_app. split; [|exact Hrest_fit].
    apply Forall_fmap. rewrite <- Hsize. exact Hpieces_fit.
Qed.

Lemma chunks_fit_when_pieces_fit_witness :
  exists chunks,
    split_documents {| chunk_size := 5; chunk_overlap := 2; separator := [10%N] |}
      [mkDocument (str "ab" ++ [10%N] ++ str "cd" ++ [10%N] ++ str "ef") ∅] = Ok chunks /\
    Forall (fun chunk => Py.len (page_content chunk) <= 5) chunks.
Proof.
  apply (chunks_fit_when_pieces_fit 5 2 [10%N]).
  - reflexivity.
  - constructor; [|constructor]. unfold pieces_fit. vm_compute.
    repeat constructor; discriminate.
Defined.

(** A document without content yields no chunk. *)
Lemma empty_document_yields_no_chunk :
  let sp := {| chunk_size := 500; chunk_overlap := 50; separator := [10%N] |} in
  let doc := mkDocument [] {[ str "source" := VStr (str "data/empty.txt") ]} in
  create 500 50 [10%N] = Ok sp /\
  split_documents sp [doc] = Ok [] /\
  (length (@nil Document) < length [doc])%nat.
Proof. repeat split; vm_compute; (reflexivity || lia). Qed.

(** C7 as amended. With a splitter made for the separator newline, when
    every document has a character that is not white space, the split
    succeeds and yields at least as many chunks as there are
    documents. *)
Theorem chunk_count_at_least_documents (size overlap : Z) (sp : t)
    (documents : list Document) :
  create size overlap [10%N] = Ok sp ->
  Forall (fun doc => Py.has_nonspace (page_content doc) = true) documents ->
  exists chunks,
    split_documents sp documents = Ok chunks /\
    (length documents <= length chunks)%nat.
Proof.
  intros (Hsize & Hov & Hsep & Hpos & Hrange)%create_bounds Hink.
  unfold split_documents. induction Hink as [|doc documents Hdoc _ IH].
  - exists []. split; [reflexivity | simpl; lia].
  - destruct IH as (rest & Hrest & Hcount).
    destruct (merge_splits_keeps_text sp (separator sp)
                (_split_text_with_regex (page_content doc) (separator sp)))
      as (piece & pieces & Hpieces);
      [lia | apply split_text_with_regex_nonempty
       | rewrite Hsep; now apply split_text_with_regex_keeps_text |].
    cbn [create_documents]. unfold split_text. rewrite Hpieces, Hrest.
    eexists. split; [reflexivity|].
    rewrite length_app, length_fmap. simpl. lia.
Qed.

Lemma chunk_count_at_least_documents_witness :
  exists chunks,
    split_documents {| chunk_size := 5; chunk_overlap := 2; separator := [10%N] |}
      [mkDocument (str "ab" ++ [10%N] ++ str "cd" ++ [10%N] ++ str "ef") ∅;
       mkDocument (str " x ") ∅] = Ok chunks /\
    (2 <= length chunks)%nat.
Proof.
  apply (chunk_count_at_least_documents 5 2).
  - reflexivity.
  - repeat constructor.
Defined.

(** * Further properties *)

(** ** The walk over the folder tree *)

Section Walk.

Context {W Emb Db : Type}.
Variable E : env W Emb Db.

Lemma extend_result_app (acc new : list Document) (r : result (list Document)) :
  extend_result acc (extend_result new r) = extend_result (acc ++ new) r.
Proof. destruct r; simpl; [now rewrite app_assoc | reflexivity]. Qed.

Lemma file_load_extends (path : text) (acc : list Document) (s : state W) :
  file_load E path acc s =
    (extend_result acc (fst (file_load E path [] s)), snd (file_load E path [] s)).
Proof.
  unfold file_load.
  destruct (SUPPORTED_EXTENSIONS E !! _) as [loader|].
  - destruct (decide _); unfold bind; rewrite loader_load_result;
      destruct (loader path (world s)); reflexivity.
  - simpl. now rewrite app_nil_r.
Qed.

Lemma for_each_extends {A} (body : list Document -> A -> M W (list Document))
    (xs : list A) :
  (forall acc x s, In x xs ->
     body acc x s = (extend_result acc (fst (body [] x s)), snd (body [] x s))) ->
  forall acc s,
    for_each body xs acc s =
      (extend_result acc (fst (for_each body xs [] s)), snd (for_each body xs [] s)).
Proof.
  induction xs as [|x xs IH]; intros Hbody acc s.
  - simpl. now rewrite app_nil_r.
  - cbn [for_each]. unfold bind.
    rewrite (Hbody acc x s (or_introl eq_refl)).
    destruct (body [] x s) as [[new|e] s1]; cbn [fst snd extend_result]; [|reflexivity].
    rewrite (IH (fun acc y s Hy => Hbody acc y s (or_intror Hy)) (acc ++ new) s1).
    rewrite (IH (fun acc y s Hy => Hbody acc y s (or_intror Hy)) new s1).
    cbn [fst snd]. now rewrite extend_result_app.
Qed.

(** X1. [recursive_file_check] only appends to the list it is given:
    what it returns for a list [acc] is [acc] followed by what it
    returns for the empty list, with the same calls and the same
    exception. *)
Theorem recursive_file_check_appends (depth : nat) (path : text)
    (acc : list Document) (s : state W) :
  recursive_file_check E depth path acc s =
    (extend_result acc (fst (recursive_file_check E depth path [] s)),
     snd (recursive_file_check E depth path [] s)).
Proof.
  revert path acc s. induction depth as [|depth IH]; intros path acc s.
  - reflexivity.
  - cbn [recursive_file_check]. rewrite !bind_query.
    destruct (os_path_isdir E path (world s)).
    + rewrite !bind_read. destruct (os_listdir E path (world s)) as [files|e];
        [|reflexivity].
      apply for_each_extends. intros acc' file s' _. apply IH.
    + apply file_load_extends.
Qed.




End Walk.


(** ** load_data_sources *)

Section Sources.

Context {W Emb Db : Type}.
Variable E : env W Emb Db.

Lemma bind_ext {A B} (m : M W A) (f g : A -> M W B) (s : state W) :
  (forall a s', f a s' = g a s') -> bind m f s = bind m g s.
Proof. intros H. unfold bind. destruct (m s) as [[a|e] s1]; [apply H | reflexivity]. Qed.

Lemma bind_ok {A B} (m : M W A) (f : A -> M W B) (s s1 : state W) (a : A) :
  m s = (Ok a, s1) -> bind m f s = f a s1.
Proof. intros H. unfold bind. now rewrite H. Qed.

Lemma bind_raise {A B} (m : M W A) (f : A -> M W B) (s s1 : state W) (e : exn) :
  m s = (Raise e, s1) -> bind m f s = (Raise e, s1).
Proof. intros H. unfold bind. now rewrite H. Qed.

Lemma for_each_app {A B} (body : B -> A -> M W B) (xs ys : list A) (acc : B)
    (s : state W) :
  for_each body (xs ++ ys) acc s =
    bind (for_each body xs acc) (for_each body ys) s.
Proof.
  revert acc s. induction xs as [|x xs IH]; intros acc s; [reflexivity|].
  cbn [for_each app]. rewrite bind_assoc. apply bind_ext. intros a s'. apply IH.
Qed.

Lemma web_loop_run (urls : list text) (results : list (list Document)) (w : W) :
  Forall2 (fun url docs => WebBaseLoader_load E url w = Ok docs) urls results ->
  forall acc s,
    world s = w ->
    for_each
      (fun web_docs_all web_url =>
         bind (emit (EvLoadWeb web_url)) (fun _ =>
         bind (read (WebBaseLoader_load E web_url)) (fun web_docs =>
         ret (web_docs_all ++ web_docs))))
      urls acc s =
    (Ok (acc ++ concat results),
     {| world := world s; log := log s; trace := trace s ++ map EvLoadWeb urls |}).
Proof.
  induction 1 as [|url docs urls results Hurl _ IH]; intros acc s Hw.
  - simpl. rewrite !app_nil_r. now destruct s.
  - cbn [for_each]. rewrite bind_assoc, bind_emit, bind_assoc, bind_read.
    cbn [world emitted]. rewrite Hw, Hurl, bind_ret.
    rewrite IH by exact Hw. cbn [world log trace emitted concat map].
    rewrite <- !app_assoc, ?Hw. reflexivity.
Qed.

(** X3. When the walk over the folder tree returns [docs_files] and the
    web loader returns a list of documents for every configured URL,
    [load_data_sources] returns the documents of the files followed by
    those of the pages, in the order of the URLs, having called the web
    loader once for each URL after the walk. *)
Theorem load_data_sources_concatenates (s s1 : state W)
    (docs_files : list Document) (web_results : list (list Document)) :
  recursive_file_check E (recursion_limit (rt E)) (RAG_TOP_FOLDER_PATH E) [] s
    = (Ok docs_files, s1) ->
  Forall2 (fun url docs => WebBaseLoader_load E url (world s) = Ok docs)
          (WEB_URL_LOAD_TARGETS E) web_results ->
  load_data_sources E s =
    (Ok (docs_files ++ concat web_results),
     {| world := world s1; log := log s1;
        trace := trace s1 ++ map EvLoadWeb (WEB_URL_LOAD_TARGETS E) |}).
Proof.
  intros Hwalk Hweb. unfold load_data_sources.
  rewrite (bind_ok _ _ _ _ _ Hwalk).
  apply recursive_file_check_after_loads in Hwalk as (Hw & _).
  rewrite (bind_ok _ _ _ _ _ (web_loop_run _ _ (world s) Hweb [] s1 Hw)).
  reflexivity.
Qed.

(** X4. When the web loader raises [e] on one URL after having
    succeeded on the URLs before it, [load_data_sources] raises [e]:
    the documents loaded so far are not returned and the URLs after it
    are not fetched. *)
Theorem load_data_sources_web_failure (s s1 : state W) (docs_files : list Document)
    (done rest : list text) (url : text) (results : list (list Document)) (e : exn) :
  recursive_file_check E (recursion_limit (rt E)) (RAG_TOP_FOLDER_PATH E) [] s
    = (Ok docs_files, s1) ->
  WEB_URL_LOAD_TARGETS E = done ++ url :: rest ->
  Forall2 (fun url docs => WebBaseLoader_load E url (world s) = Ok docs) done results ->
  WebBaseLoader_load E url (world s) = Raise e ->
  load_data_sources E s =
    (Raise e,
     {| world := world s1; log := log s1;
        trace := trace s1 ++ map EvLoadWeb (done ++ [url]) |}).
Proof.
  intros Hwalk Hurls Hdone Hfail. unfold load_data_sources.
  rewrite (bind_ok _ _ _ _ _ Hwalk), Hurls.
  apply recursive_file_check_after_loads in Hwalk as (Hw & _).
  apply bind_raise. rewrite for_each_app.
  rewrite (bind_ok _ _ _ _ _ (web_loop_run _ _ (world s) Hdone [] s1 Hw)).
  cbn [for_each]. rewrite bind_assoc, bind_emit, bind_assoc, bind_read.
  cbn [world log trace emitted]. rewrite Hw, Hfail.
  now rewrite map_app, app_assoc.
Qed.

End Sources.

Lemma load_data_sources_concatenates_witness :
  fst (load_data_sources
         (Sample.environment Sample.linux [str "https://a.example/"; str "https://b.example/"])
         (Sample.initial Sample.corpus)) =
  Ok (match fst (recursive_file_check (Sample.environment Sample.linux []) 1000
                   (str "data") [] (Sample.initial Sample.corpus)) with
      | Ok docs => docs
      | Raise _ => []
      end
      ++ [mkDocument (str "page") {[ str "source" := VStr (str "https://a.example/") ]};
          mkDocument (str "page") {[ str "source" := VStr (str "https://b.example/") ]}]).
Proof.
  set (E0 := Sample.environment Sample.linux
                [str "https://a.example/"; str "https://b.example/"]).
  pose (walk := recursive_file_check E0 1000 (str "data") [] (Sample.initial Sample.corpus)).
  pose (docs := match fst walk with Ok docs => docs | Raise _ => [] end).
  assert (Hwalk : walk = (Ok docs, snd walk)) by (vm_compute; reflexivity).
  rewrite (load_data_sources_concatenates E0 (Sample.initial Sample.corpus) (snd walk) docs
             [[mkDocument (str "page") {[ str "source" := VStr (str "https://a.example/") ]}];
              [mkDocument (str "page") {[ str "source" := VStr (str "https://b.example/") ]}]]
             Hwalk).
  - vm_compute. reflexivity.
  - repeat constructor.
Defined.

Lemma load_data_sources_web_failure_witness :
  load_data_sources
    (Sample.with_web_loader
       (Sample.environment Sample.linux
          [str "https://a.example/"; str "ftp://b.example/"; str "https://c.example/"])
       Sample.https_only)
    (Sample.initial Sample.corpus) =
  (Raise (Sample.os_error "ConnectionError" (str "ftp://b.example/")),
   {| world := Sample.corpus; log := [];
      trace := [EvLoadFile (str "data/a.txt"); EvLoadFile (str "data/t.csv");
                EvLoadWeb (str "https://a.example/"); EvLoadWeb (str "ftp://b.example/")] |}).
Proof.
  set (E0 := Sample.with_web_loader
                (Sample.environment Sample.linux
                   [str "https://a.example/"; str "ftp://b.example/"; str "https://c.example/"])
                Sample.https_only).
  pose (walk := recursive_file_check E0 1000 (str "data") [] (Sample.initial Sample.corpus)).
  pose (docs := match fst walk with Ok docs => docs | Raise _ => [] end).
  assert (Hwalk : walk = (Ok docs, snd walk)) by (vm_compute; reflexivity).
  rewrite (load_data_sources_web_failure E0 (Sample.initial Sample.corpus) (snd walk) docs
             [str "https://a.example/"] [str "https://c.example/"] (str "ftp://b.example/")
             [[mkDocument (str "page") {[ str "source" := VStr (str "https://a.example/") ]}]]
             (Sample.os_error "ConnectionError" (str "ftp://b.example/")) Hwalk).
  - vm_compute. reflexivity.
  - reflexivity.
  - repeat constructor.
  - reflexivity.
Defined.

(** ** Files without an extension *)







Section Dotfiles.

Context {W Emb Db : Type}.
Variable E : env W Emb Db.


End Dotfiles.


(** ** The normalisation loop *)

Section Normalisation.

Context {W Emb Db : Type}.
Variable E : env W Emb Db.

Lemma first_failure_none (vs : list value) :
  first_failure E vs = None <->
  Forall (fun v => exists v', adjust_string (rt E) v = Ok v') vs.
Proof.
  induction vs as [|v vs IH]; cbn [first_failure].
  - split; [constructor | reflexivity].
  - destruct (adjust_string (rt E) v) as [v'|e] eqn:Hv.
    + rewrite IH. split.
      * intros H. constructor; [eauto | exact H].
      * intros H. now inversion H.
    + split; [discriminate|]. intros H. inversion H as [|? ? [v' Hv'] _]. congruence.
Qed.

Lemma adjust_string_str (r : runtime) (t : text) (v : value) :
  adjust_string r (VStr t) = Ok v -> exists t', v = VStr t'.
Proof.
  simpl. destruct (on_windows r).
  - destruct (cp932_round_trip r _); [|discriminate]. intros [= <-]. eauto.
  - intros [= <-]. eauto.
Qed.

Lemma adjust_string_other (r : runtime) (v : value) :
  is_str v = false -> adjust_string r v = Ok v.
Proof. destruct v; [discriminate | reflexivity..]. Qed.

(** What [adjust_document] returns when it returns. *)
Lemma adjust_document_ok (doc doc' : Document) :
  adjust_document E doc = Ok doc' ->
  adjust_string (rt E) (VStr (page_content doc)) = Ok (VStr (page_content doc')) /\
  (forall k, match metadata doc !! k with
             | Some v => exists v', adjust_string (rt E) v = Ok v' /\
                                    metadata doc' !! k = Some v'
             | None => metadata doc' !! k = None
             end).
Proof.
  unfold adjust_document.
  destruct (adjust_string (rt E) (VStr (page_content doc))) as [content|e] eqn:Hc;
    [|discriminate].
  destruct (first_failure E _) eqn:Hff; [discriminate|].
  intros [= <-]. cbn [page_content metadata]. split.
  - destruct (adjust_string_str _ _ _ Hc) as [t' ->]. reflexivity.
  - intros k. rewrite lookup_fmap. destruct (metadata doc !! k) as [v|] eqn:Hk;
      [|reflexivity].
    apply first_failure_none in Hff. rewrite Forall_forall in Hff.
    destruct (Hff v) as [v' Hv'].
    { apply list_elem_of_fmap. exists (k, v). split; [reflexivity|].
      now apply elem_of_map_to_list. }
    exists v'. split; [exact Hv'|]. cbn. now rewrite Hv'.
Qed.

(** X6. On a platform other than Windows the normalisation loop of
    [process_rag] changes nothing: it returns every document as it
    was and raises nothing. *)
Theorem adjust_documents_off_windows (docs_all : list Document) :
  on_windows (rt E) = false ->
  adjust_documents E docs_all = Ok docs_all.
Proof.
  intros Hwin.
  assert (Hid : forall v, adjust_string (rt E) v = Ok v).
  { intros [t| | |]; simpl; try reflexivity. now rewrite Hwin. }
  induction docs_all as [|doc rest IH]; [reflexivity|].
  cbn [adjust_documents]. rewrite IH.
  replace (adjust_document E doc) with (Ok doc); [reflexivity|].
  unfold adjust_document. rewrite Hid.
  replace (first_failure E _) with (@None exn).
  - destruct doc as [content meta]. cbn [page_content metadata text_of]. do 2 f_equal.
    rewrite <- (map_fmap_id meta) at 1. apply map_fmap_ext.
    intros k v _. now rewrite Hid.
  - symmetry. apply first_failure_none, Forall_forall. intros v _. eauto.
Qed.

(** X7. When the normalisation loop returns, it returns as many
    documents in the same order, each with the metadata keys it had;
    a metadata value that is not a [str] is the value it was. *)
Theorem adjust_documents_keeps_keys (docs_all docs' : list Document) :
  adjust_documents E docs_all = Ok docs' ->
  Forall2 (fun doc doc' =>
             dom (metadata doc') = dom (metadata doc) /\
             forall k v, metadata doc !! k = Some v -> is_str v = false ->
                         metadata doc' !! k = Some v)
          docs_all docs'.
Proof.
  revert docs'. induction docs_all as [|doc rest IH]; intros docs'; cbn [adjust_documents].
  - intros [= <-]. constructor.
  - destruct (adjust_document E doc) as [doc1|e] eqn:Hdoc; [|discriminate].
    destruct (adjust_documents E rest) as [rest1|e]; [|discriminate].
    intros [= <-]. constructor; [|now apply IH].
    apply adjust_document_ok in Hdoc as [_ Hmeta]. split.
    + apply set_eq. intros k. rewrite !elem_of_dom. specialize (Hmeta k).
      destruct (metadata doc !! k) as [v|].
      * destruct Hmeta as (v' & _ & ->). split; eauto.
      * rewrite Hmeta. reflexivity.
    + intros k v Hk Hv. specialize (Hmeta k). rewrite Hk in Hmeta.
      destruct Hmeta as (v' & Hv' & ->).
      rewrite (adjust_string_other _ _ Hv) in Hv'. congruence.
Qed.

Lemma adjust_string_fixed (r : runtime) (v v' : value) :
  (on_windows r = true -> codec_laws r) ->
  adjust_string r v = Ok v' -> adjust_string r v' = Ok v'.
Proof.
  intros Hlaws. destruct v as [t| | |]; try (intros [= <-]; reflexivity).
  simpl. destruct (on_windows r) eqn:Hwin.
  - destruct (Hlaws eq_refl) as [_ Hfixed Hcomposed].
    destruct (cp932_round_trip r _) as [t'|e] eqn:Ht'; [|discriminate].
    intros [= <-]. simpl. rewrite Hwin.
    now rewrite (Hcomposed _ _ Ht'), (Hfixed _ _ Ht').
  - intros [= <-]. simpl. now rewrite Hwin.
Qed.

Lemma adjust_document_fixed (doc doc' : Document) :
  (on_windows (rt E) = true -> codec_laws (rt E)) ->
  adjust_document E doc = Ok doc' -> adjust_document E doc' = Ok doc'.
Proof.
  intros Hlaws Hdoc. apply adjust_document_ok in Hdoc as [Hcontent Hmeta].
  apply (adjust_string_fixed _ _ _ Hlaws) in Hcontent.
  assert (Hvalues : forall k v, metadata doc' !! k = Some v ->
                                adjust_string (rt E) v = Ok v).
  { intros k v Hk. specialize (Hmeta k). destruct (metadata doc !! k) as [v0|].
    - destruct Hmeta as (v' & Hv' & Hk'). rewrite Hk in Hk'. injection Hk' as ->.
      exact (adjust_string_fixed _ _ _ Hlaws Hv').
    - congruence. }
  unfold adjust_document. rewrite Hcontent.
  replace (first_failure E _) with (@None exn).
  - destruct doc' as [content meta]. cbn [page_content metadata text_of] in *.
    do 2 f_equal. rewrite <- (map_fmap_id meta) at 2. apply map_fmap_ext.
    intros k v Hk. now rewrite (Hvalues k v Hk).
  - symmetry. apply first_failure_none, Forall_forall.
    intros v ([k v0] & -> & Hin)%list_elem_of_fmap.
    apply elem_of_map_to_list in Hin. exists v0. exact (Hvalues k v0 Hin).
Qed.

(** X8. The normalisation loop is idempotent: run again on the
    documents it returned, it returns them unchanged. On Windows this
    rests on the laws of the two codecs. *)
Theorem adjust_documents_idempotent (docs_all docs' : list Document) :
  (on_windows (rt E) = true -> codec_laws (rt E)) ->
  adjust_documents E docs_all = Ok docs' ->
  adjust_documents E docs' = Ok docs'.
Proof.
  intros Hlaws. revert docs'.
  induction docs_all as [|doc rest IH]; intros docs'; cbn [adjust_documents].
  - intros [= <-]. reflexivity.
  - destruct (adjust_document E doc) as [doc1|e] eqn:Hdoc; [|discriminate].
    destruct (adjust_documents E rest) as [rest1|e]; [|discriminate].
    intros [= <-]. cbn [adjust_documents].
    now rewrite (adjust_document_fixed _ _ Hlaws Hdoc), (IH rest1 eq_refl).
Qed.

End Normalisation.

Lemma adjust_documents_off_windows_witness :
  adjust_documents (Sample.environment Sample.linux [])
    [mkDocument [101; 769; 120; 12354]%N
       (<[ str "page" := VInt 3 ]> {[ str "source" := VStr [12354%N] ]})] =
  Ok [mkDocument [101; 769; 120; 12354]%N
        (<[ str "page" := VInt 3 ]> {[ str "source" := VStr [12354%N] ]})].
Proof.
  apply (adjust_documents_off_windows (Sample.environment Sample.linux [])).
  reflexivity.
Defined.

Lemma adjust_documents_keeps_keys_witness :
  Forall2 (fun doc doc' =>
             dom (metadata doc') = dom (metadata doc) /\
             forall k v, metadata doc !! k = Some v -> is_str v = false ->
                         metadata doc' !! k = Some v)
    [mkDocument [101; 769; 120; 12354]%N
       (<[ str "page" := VInt 3 ]> {[ str "source" := VStr [12354%N; 97%N] ]})]
    [mkDocument [120%N]
       (<[ str "page" := VInt 3 ]> {[ str "source" := VStr [97%N] ]})].
Proof.
  apply (adjust_documents_keeps_keys (Sample.environment Sample.win32 [])).
  vm_compute. reflexivity.
Defined.

Lemma adjust_documents_idempotent_witness :
  adjust_documents (Sample.environment Sample.win32 [])
    [mkDocument [120%N]
       (<[ str "page" := VInt 3 ]> {[ str "source" := VStr [97%N] ]})] =
  Ok [mkDocument [120%N]
        (<[ str "page" := VInt 3 ]> {[ str "source" := VStr [97%N] ]})].
Proof.
  apply (adjust_documents_idempotent (Sample.environment Sample.win32 [])
           [mkDocument [101; 769; 120; 12354]%N
              (<[ str "page" := VInt 3 ]> {[ str "source" := VStr [12354%N; 97%N] ]})]).
  - intros _. apply (sample_codec_laws "win32").
  - vm_compute. reflexivity.
Defined.

(** ** Failures and what they leave behind *)

Section Failures.

Context {W Emb Db : Type}.
Variable E : env W Emb Db.

Ltac run_calls :=
  repeat first
    [ rewrite bind_assoc | rewrite bind_emit | rewrite bind_logger
    | rewrite bind_call | rewrite bind_read | rewrite bind_pure
    | rewrite bind_query | rewrite bind_ret
    | progress cbn [world log trace emitted logged with_world fst snd]
    | match goal with
      | |- context [match ?x with _ => _ end] =>
          tryif is_var x then fail else destruct x eqn:?
      end ].

Lemma web_loop_reads (urls : list text) :
  forall acc s s' r,
    for_each
      (fun web_docs_all web_url =>
         bind (emit (EvLoadWeb web_url)) (fun _ =>
         bind (read (WebBaseLoader_load E web_url)) (fun web_docs =>
         ret (web_docs_all ++ web_docs))))
      urls acc s = (r, s') ->
    world s' = world s /\ log s' = log s.
Proof.
  induction urls as [|url urls IH]; intros acc s s' r; cbn [for_each].
  - intros [= _ <-]. auto.
  - rewrite bind_assoc, bind_emit, bind_assoc, bind_read. cbn [world emitted].
    destruct (WebBaseLoader_load E url (world s)) as [web_docs|e].
    + rewrite bind_ret. intros H. apply IH in H as [-> ->]. auto.
    + intros [= _ <-]. auto.
Qed.

Lemma load_data_sources_reads (s s' : state W) (r : result (list Document)) :
  load_data_sources E s = (r, s') -> world s' = world s /\ log s' = log s.
Proof.
  unfold load_data_sources. intros H.
  apply bind_inv in H as [(docs_files & s1 & H1 & H2)|(e & H1 & _)];
    apply recursive_file_check_after_loads in H1 as (Hw & Hl & _); [|auto].
  apply bind_inv in H2 as [(docs_web & s2 & H2 & H3)|(e & H2 & _)];
    apply web_loop_reads in H2 as [Hw2 Hl2].
  - injection H3 as _ <-. split; congruence.
  - split; congruence.
Qed.

(** The statements before the [try] change the world through
    [os.makedirs] only and log informational records only. *)
Lemma prepare_reads (p : text) (s s1 : state W) (r : result (Emb * list Document)) :
  prepare E p s = (r, s1) ->
  world s1 = snd (os_makedirs E p (world s)) /\
  exists infos, log s1 = log s ++ infos /\ Forall is_info infos.
Proof.
  unfold prepare. rewrite bind_emit, bind_call. cbn [world emitted].
  destruct (fst (os_makedirs E p (world s))) as [[]|e].
  2: { intros [= _ <-]. split; [reflexivity|]. exists []. now rewrite app_nil_r. }
  rewrite bind_logger.
  match goal with |- bind _ _ ?s0 = _ -> _ => set (sA := s0) end.
  unfold bind at 1.
  destruct (load_data_sources E sA) as [[docs_loaded|e] s2] eqn:Hload;
    apply load_data_sources_reads in Hload as [Hw Hl];
    subst sA; cbn [world log trace emitted logged with_world] in Hw, Hl.
  2: { intros [= _ <-]. split; [exact Hw|]. rewrite Hl. eexists. split; [reflexivity|].
       repeat constructor. }
  run_calls; unfold logger, ret; intros [= _ <-];
    cbn [world log trace emitted logged with_world];
    (split; [exact Hw|]); rewrite Hl, <- ?app_assoc; cbn [app];
    (eexists; split; [reflexivity|]); repeat constructor.
Qed.

Lemma prepare_calls_spare_store (p : text) (file_events : list event) :
  Forall is_load_file file_events ->
  Forall (fun ev => ~ touches_store ev) (prepare_calls E p file_events).
Proof.
  intros Hfe. unfold prepare_calls. repeat apply Forall_app_2.
  - repeat constructor. intros [].
  - eapply Forall_impl; [exact Hfe|]. intros [] H; try destruct H; intros [].
  - apply List.Forall_map, Forall_forall. intros url _ [].
  - repeat constructor. intros [].
Qed.

(** X9. When a statement before the [try] raises [e] (a loader, the
    normalisation, the embedding model or the splitter), [process_rag]
    raises [e] without logging an error; it has called neither
    [shutil.rmtree] nor Chroma, and the world is as [os.makedirs] left
    it: a failed load leaves an existing index in place. *)
Theorem process_rag_load_failure (p : text) (s s1 : state W) (e : exn) :
  prepare E p s = (Raise e, s1) ->
  process_rag E p s = (Raise e, s1) /\
  world s1 = snd (os_makedirs E p (world s)) /\
  (exists infos, log s1 = log s ++ infos /\ Forall is_info infos) /\
  (exists t, trace s1 = trace s ++ t /\ Forall (fun ev => ~ touches_store ev) t).
Proof.
  intros Hprep. split; [|split; [|split]].
  - unfold process_rag. now apply bind_raise.
  - now apply prepare_reads in Hprep as [Hw _].
  - now apply prepare_reads in Hprep as [_ Hl].
  - apply prepare_effects in Hprep as (file_events & t & Hfe & Ht & [k Hk]).
    exists t. split; [exact Ht|].
    pose proof (prepare_calls_spare_store p file_events Hfe) as Hall.
    rewrite Hk in Hall. now apply Forall_app in Hall as [Hall _].
Qed.

(** X10. Run as a script, a failure of the [try] block of
    [process_rag] is logged twice, by the handler of [process_rag] and
    then by the handler of the script, each record with the message of
    the exception, and the script ends with that exception. *)
Theorem main_store_failure_logged_twice (s s1 s2 : state W) (w1 : W) (emb : Emb)
    (chunks : list Document) (e : exn) :
  os_makedirs E (LOG_DIR_PATH E) (world s) = (Ok tt, w1) ->
  prepare E (CHROMA_DB_DIR E)
    (with_world w1 (emitted (EvMakedirs (LOG_DIR_PATH E)) s)) = (Ok (emb, chunks), s1) ->
  rebuild_store E (CHROMA_DB_DIR E) emb chunks s1 = (Raise e, s2) ->
  main E s =
    (Raise e,
     logged (ERROR, MsgRagError (exn_msg e))
       (logged (ERROR, MsgStoreCreationError (exn_msg e)) s2)).
Proof.
  intros Hmk Hprep Hstore. unfold main. rewrite bind_emit, bind_call.
  cbn [world emitted]. rewrite Hmk. cbn [fst snd].
  unfold try_except at 1. unfold process_rag. rewrite bind_assoc.
  rewrite (bind_ok _ _ _ _ _ Hprep). cbn [fst snd].
  unfold bind at 1, try_except at 1. rewrite Hstore.
  unfold log_and_reraise. rewrite bind_logger. reflexivity.
Qed.

(** X11. The rebuild is not atomic: when the directory was removed and
    created again and [Chroma.from_documents] then raises [e],
    [process_rag] raises [e] with the world as the failed call left
    it; nothing puts the removed index back. *)
Theorem process_rag_store_not_restored (p : text) (s s1 : state W) (w2 w3 w4 : W)
    (emb : Emb) (chunks : list Document) (e : exn) :
  prepare E p s = (Ok (emb, chunks), s1) ->
  os_path_exists E p (world s1) = true ->
  shutil_rmtree E p (world s1) = (Ok tt, w2) ->
  os_makedirs E p w2 = (Ok tt, w3) ->
  Chroma_from_documents E chunks emb p w3 = (Raise e, w4) ->
  process_rag E p s =
    (Raise e,
     {| world := w4;
        log := log s1 ++ [(INFO, MsgStoreDeleted);
                          (ERROR, MsgStoreCreationError (exn_msg e))];
        trace := trace s1 ++ [EvRmtree p; EvMakedirs p;
                              EvChromaFromDocuments chunks p] |}).
Proof.
  intros Hprep Hex Hrm Hmk Hbuild. unfold process_rag.
  rewrite (bind_ok _ _ _ _ _ Hprep). cbn [fst snd].
  unfold try_except, rebuild_store, clear_store, build_store.
  repeat first
    [ rewrite bind_assoc | rewrite bind_emit | rewrite bind_logger
    | rewrite bind_call | rewrite bind_query
    | progress cbn [world log trace emitted logged with_world fst snd]
    | rewrite Hex | rewrite Hrm | rewrite Hmk | rewrite Hbuild ].
  unfold log_and_reraise. rewrite bind_logger. unfold raise.
  unfold logged, with_world, emitted. cbn [world log trace].
  now rewrite <- !app_assoc.
Qed.

(** Every outcome of the [try] block that returns: what it logged and
    the world it leaves. *)
Lemma rebuild_store_log (p : text) (emb : Emb) (chunks : list Document)
    (s s' : state W) (found : retriever Db) :
  os_path_exists E p (world s) = true ->
  rebuild_store E p emb chunks s = (Ok found, s') ->
  exists last,
    log s' = log s ++ [(INFO, MsgStoreDeleted); (INFO, MsgStorePersisted); last] /\
    ((last = (ERROR, MsgSaveFailed) /\ os_path_exists E p (world s') = false) \/
     (exists files, last = (INFO, MsgSavedFiles files) /\
                    os_path_exists E p (world s') = true /\
                    os_listdir E p (world s') = Ok files)).
Proof.
  intros Hex. unfold rebuild_store, clear_store, build_store.
  rewrite bind_assoc, bind_query, Hex.
  run_calls; unfold logger, ret; intros H; try discriminate; injection H as _ <-;
    cbn [world log trace emitted logged with_world];
    rewrite <- ?app_assoc; cbn [app];
    (eexists; split; [reflexivity|]); [right; eauto | left; auto].
Qed.

(** X12. A run of [process_rag] that returns has logged six records and
    no other: the directory, the number of documents loaded, the
    number of chunks handed to Chroma, the removal of the store, its
    persisting, and last the files then found in the directory, or, if
    the directory does not exist after the build, an error record,
    the retriever being returned all the same. *)
Theorem process_rag_success_log (p : text) (s s' : state W) (found : retriever Db) :
  makedirs_creates E ->
  process_rag E p s = (Ok found, s') ->
  exists n chunks last,
    log s' = log s ++ [(INFO, MsgPersistDirectory p);
                       (INFO, MsgLoadedDocuments n);
                       (INFO, MsgSplittedDocuments (length chunks));
                       (INFO, MsgStoreDeleted);
                       (INFO, MsgStorePersisted);
                       last] /\
    In (EvChromaFromDocuments chunks p) (trace s') /\
    ((last = (ERROR, MsgSaveFailed) /\ os_path_exists E p (world s') = false) \/
     (exists files, last = (INFO, MsgSavedFiles files) /\
                    os_path_exists E p (world s') = true /\
                    os_listdir E p (world s') = Ok files)).
Proof.
  intros Hlaw. unfold process_rag. intros H.
  apply bind_inv in H as [([emb chunks] & s1 & Hprep & Htry)|(e & _ & He)];
    [|discriminate].
  unfold try_except in Htry. cbn [fst snd] in Htry.
  destruct (rebuild_store E p emb chunks s1) as [[found'|e] s2] eqn:Hstore.
  2: { unfold log_and_reraise in Htry. rewrite bind_logger in Htry. discriminate. }
  injection Htry as <- <-.
  apply prepare_ok in Hprep
    as (file_events & docs_files & docs_web & docs & sp
        & Hmade & _ & _ & _ & _ & _ & Hlog).
  apply Hlaw in Hmade.
  pose proof (rebuild_store_log _ _ _ _ _ _ Hmade Hstore) as (last & Hlog2 & Hlast).
  apply rebuild_store_effects in Hstore as (t & _ & Ht & _ & _ & Hout).
  rewrite Hmade in Hout. destruct Hout as [-> _].
  exists (length (docs_files ++ docs_web)), chunks, last.
  split; [rewrite Hlog2, Hlog; now rewrite <- app_assoc|].
  split; [|exact Hlast].
  rewrite Ht. apply in_or_app. right. unfold rebuild_calls, build_calls. simpl. auto.
Qed.

End Failures.

Lemma process_rag_load_failure_witness :
  process_rag (Sample.environment Sample.linux []) (str "chroma_db")
    (Sample.initial Sample.dangling) =
  (Raise (Sample.os_error "FileNotFoundError" (str "data/ghost.txt")),
   {| world := snd (Sample.makedirs (str "chroma_db") Sample.dangling);
      log := [(INFO, MsgPersistDirectory (str "chroma_db"))];
      trace := [EvMakedirs (str "chroma_db"); EvLoadFile (str "data/ghost.txt")] |}).
Proof.
  set (E0 := Sample.environment Sample.linux []).
  pose (prepared := prepare E0 (str "chroma_db") (Sample.initial Sample.dangling)).
  assert (Hprep : prepared =
                    (Raise (Sample.os_error "FileNotFoundError" (str "data/ghost.txt")),
                     snd prepared)) by (vm_compute; reflexivity).
  destruct (process_rag_load_failure E0 (str "chroma_db") (Sample.initial Sample.dangling)
              (snd prepared) _ Hprep) as [-> _].
  vm_compute. reflexivity.
Defined.

Lemma main_store_failure_logged_twice_witness :
  fst (main (Sample.environment_with Sample.linux [] Sample.failing_store)
         (Sample.initial Sample.corpus)) = Raise Sample.rate_limit /\
  List.filter (fun record => match fst record with ERROR => true | INFO => false end)
    (log (snd (main (Sample.environment_with Sample.linux [] Sample.failing_store)
                 (Sample.initial Sample.corpus)))) =
    [(ERROR, MsgStoreCreationError (str "quota exceeded"));
     (ERROR, MsgRagError (str "quota exceeded"))].
Proof.
  set (E0 := Sample.environment_with Sample.linux [] Sample.failing_store).
  pose (made := Sample.makedirs (str "logs") Sample.corpus).
  pose (sA := with_world (snd made)
                (emitted (EvMakedirs (str "logs")) (Sample.initial Sample.corpus))).
  pose (prepared := prepare E0 (str "chroma_db") sA).
  pose (chunks := match fst prepared with Ok (_, c) => c | Raise _ => [] end).
  pose (failed := rebuild_store E0 (str "chroma_db") tt chunks (snd prepared)).
  assert (Hmk : made = (Ok tt, snd made)) by (vm_compute; reflexivity).
  assert (Hprep : prepared = (Ok (tt, chunks), snd prepared)) by (vm_compute; reflexivity).
  assert (Hstore : failed = (Raise Sample.rate_limit, snd failed))
    by (vm_compute; reflexivity).
  rewrite (main_store_failure_logged_twice E0 (Sample.initial Sample.corpus)
             (snd prepared) (snd failed) (snd made) tt chunks Sample.rate_limit
             Hmk Hprep Hstore).
  split; [reflexivity | vm_compute; reflexivity].
Defined.

Lemma process_rag_store_not_restored_witness :
  let indexed :=
    world (snd (process_rag (Sample.environment Sample.linux []) (str "chroma_db")
                  (Sample.initial Sample.corpus))) in
  let after :=
    world (snd (process_rag (Sample.environment_with Sample.linux [] Sample.failing_store)
                  (str "chroma_db") (Sample.initial indexed))) in
  Sample.isfile (Sample.chroma_file (str "chroma_db")) indexed = true /\
  Sample.isfile (Sample.chroma_file (str "chroma_db")) after = false.
Proof.
  intros indexed after.
  set (E0 := Sample.environment_with Sample.linux [] Sample.failing_store) in *.
  pose (prepared := prepare E0 (str "chroma_db") (Sample.initial indexed)).
  pose (chunks := match fst prepared with Ok (_, c) => c | Raise _ => [] end).
  pose (w2 := snd (Sample.rmtree (str "chroma_db") (world (snd prepared)))).
  pose (w3 := snd (Sample.makedirs (str "chroma_db") w2)).
  assert (Hprep : prepared = (Ok (tt, chunks), snd prepared)) by (vm_compute; reflexivity).
  pose proof (process_rag_store_not_restored E0 (str "chroma_db") (Sample.initial indexed)
                (snd prepared) w2 w3 w3 tt chunks Sample.rate_limit Hprep) as Hrun.
  unfold after. rewrite Hrun; [split; vm_compute; reflexivity | vm_compute; reflexivity..].
Defined.

Lemma process_rag_success_log_witness :
  exists n (chunks : list Document) last,
    log (snd (process_rag (Sample.environment Sample.linux []) (str "chroma_db")
                (Sample.initial Sample.corpus))) =
      [] ++ [(INFO, MsgPersistDirectory (str "chroma_db"));
             (INFO, MsgLoadedDocuments n);
             (INFO, MsgSplittedDocuments (length chunks));
             (INFO, MsgStoreDeleted);
             (INFO, MsgStorePersisted);
             last] /\
    exists files, last = (INFO, MsgSavedFiles files).
Proof.
  set (E0 := Sample.environment Sample.linux []).
  pose (run := process_rag E0 (str "chroma_db") (Sample.initial Sample.corpus)).
  pose (found := as_retriever
                   match fst run with
                   | Ok found => retriever_db found
                   | Raise _ => []
                   end 5).
  assert (Hrun : run = (Ok found, snd run)) by (vm_compute; reflexivity).
  destruct (process_rag_success_log E0 (str "chroma_db") (Sample.initial Sample.corpus)
              (snd run) found (sample_makedirs_creates _ _ _) Hrun)
    as (n & chunks & last & Hlog & _ & Hlast).
  exists n, chunks, last. split; [exact Hlog|].
  destruct Hlast as [[_ Hgone]|(files & -> & _)]; [|eauto].
  exfalso. revert Hgone. vm_compute. discriminate.
Defined.

(** ** The chunks handed to Chroma *)

Lemma lstrip_idempotent (s : text) : Py.lstrip (Py.lstrip s) = Py.lstrip s.
Proof.
  induction s as [|c s IH]; [reflexivity|].
  cbn [Py.lstrip]. destruct (Py.isspace c) eqn:Hc; [exact IH|].
  cbn [Py.lstrip]. now rewrite Hc.
Qed.

Lemma lstrip_keeps_last (a : text) (c : N) :
  Py.isspace c = false -> exists w, Py.lstrip (a ++ [c]) = w ++ [c].
Proof.
  intros Hc. induction a as [|x a IH].
  - exists []. simpl. now rewrite Hc.
  - cbn [app Py.lstrip]. destruct (Py.isspace x); [exact IH|].
    exists (x :: a). reflexivity.
Qed.

Lemma lstrip_head (s : text) :
  Py.lstrip s = [] \/ exists c t, Py.lstrip s = c :: t /\ Py.isspace c = false.
Proof.
  induction s as [|c s IH]; [now left|].
  cbn [Py.lstrip]. destruct (Py.isspace c) eqn:Hc; [exact IH|]. right. eauto.
Qed.

(** [strip] leaves what it returns unchanged. *)
Lemma strip_idempotent (s : text) : Py.strip (Py.strip s) = Py.strip s.
Proof.
  unfold Py.strip, Py.rstrip.
  assert (Hl : Py.lstrip (rev (Py.lstrip (rev (Py.lstrip s))))
               = rev (Py.lstrip (rev (Py.lstrip s)))).
  { destruct (lstrip_head s) as [->|(c & t & -> & Hc)]; [reflexivity|].
    cbn [rev]. destruct (lstrip_keeps_last (rev t) c Hc) as [w ->].
    rewrite rev_app_distr. cbn [rev app Py.lstrip]. now rewrite Hc. }
  rewrite Hl, rev_involutive, lstrip_idempotent. reflexivity.
Qed.

Lemma join_docs_clean (cur : list text) (sep doc : text) :
  _join_docs cur sep = Some doc -> clean_chunk doc.
Proof.
  unfold _join_docs. destruct (Py.strip (Py.join sep cur)) as [|c t] eqn:Hs; [discriminate|].
  intros [= <-]. split; [discriminate|]. rewrite <- Hs. apply strip_idempotent.
Qed.

Lemma merge_step_clean (sp : t) (sep : text) (st st' : merge_state) (d : text) :
  merge_step sp sep st d = Ok st' ->
  Forall clean_chunk (docs st) -> Forall clean_chunk (docs st').
Proof.
  unfold merge_step. intros H Hdocs.
  destruct (chunk_size sp <? _).
  - destruct (current_doc st) as [|c0 cs] eqn:Hcur.
    + injection H as <-. exact Hdocs.
    + destruct (drop_front _ _ _ _ _) as [[cur tot]|e]; [|discriminate].
      injection H as <-. cbn [docs].
      destruct (_join_docs (c0 :: cs) sep) as [doc|] eqn:Hj; [|exact Hdocs].
      apply Forall_app. split; [exact Hdocs|]. constructor; [|constructor].
      exact (join_docs_clean _ _ _ Hj).
  - injection H as <-. exact Hdocs.
Qed.

Lemma merge_loop_clean (sp : t) (sep : text) (splits : list text) :
  forall st st',
    merge_loop sp sep splits st = Ok st' ->
    Forall clean_chunk (docs st) -> Forall clean_chunk (docs st').
Proof.
  induction splits as [|d splits IH]; intros st st'; cbn [merge_loop].
  - now intros [= <-].
  - destruct (merge_step sp sep st d) as [st1|e] eqn:Hstep; [|discriminate].
    intros Hloop Hdocs. eapply IH; [exact Hloop|].
    eapply merge_step_clean; eauto.
Qed.

Lemma split_text_clean (sp : t) (s : text) (chunks : list text) :
  split_text sp s = Ok chunks -> Forall clean_chunk chunks.
Proof.
  unfold split_text, _merge_splits.
  destruct (merge_loop sp _ _ _) as [st|e] eqn:Hloop; [|discriminate].
  apply merge_loop_clean in Hloop; [|constructor].
  destruct (_join_docs (current_doc st) (separator sp)) as [doc|] eqn:Hj;
    intros [= <-]; [|exact Hloop].
  apply Forall_app. split; [exact Hloop|]. constructor; [|constructor].
  exact (join_docs_clean _ _ _ Hj).
Qed.

(** X13. The splitter never yields an empty chunk or one with white
    space at either end: every chunk of [split_documents] has content
    and is its own [strip]. *)
Theorem split_documents_chunks_clean (sp : t) (documents chunks : list Document) :
  split_documents sp documents = Ok chunks ->
  Forall (fun chunk => page_content chunk <> [] /\
                       Py.strip (page_content chunk) = page_content chunk) chunks.
Proof.
  unfold split_documents. revert chunks.
  induction documents as [|doc documents IH]; intros chunks; cbn [create_documents].
  - intros [= <-]. constructor.
  - destruct (split_text sp (page_content doc)) as [pieces|e] eqn:Hsplit; [|discriminate].
    destruct (create_documents sp documents) as [rest|e]; [|discriminate].
    intros [= <-]. apply Forall_app. split; [|now apply IH].
    apply split_text_clean in Hsplit. apply Forall_fmap.
    eapply Forall_impl; [exact Hsplit|]. intros c Hc. exact Hc.
Qed.

Lemma split_documents_chunks_clean_witness :
  Forall (fun chunk => page_content chunk <> [] /\
                       Py.strip (page_content chunk) = page_content chunk)
    [mkDocument (str "ab") ∅; mkDocument (str "cd ef") ∅].
Proof.
  apply (split_documents_chunks_clean
           {| chunk_size := 5; chunk_overlap := 0; separator := [10%N] |}
           [mkDocument (str "  ab " ++ [10%N; 10%N] ++ str "cd ef" ++ [10%N; 32%N]) ∅]).
  vm_compute. reflexivity.
Defined.

Lemma join_cons (sep p : text) (rest : list text) :
  rest <> [] -> Py.join sep (p :: rest) = p ++ sep ++ Py.join sep rest.
Proof. destruct rest; [congruence | reflexivity]. Qed.

Lemma re_split_from_nonempty (sep s : text) (skip : nat) (cur : text) :
  re_split_from sep s skip cur <> [].
Proof.
  revert skip cur. induction s as [|c s IH]; intros skip cur; cbn [re_split_from].
  - discriminate.
  - destruct skip; [|apply IH]. destruct (Py.startswith sep (c :: s)); [discriminate|apply IH].
Qed.

(** Joining the pieces of a split on one character gives the text
    back. *)
Lemma join_re_split (c : N) (s : text) :
  forall cur, Py.join [c] (re_split_from [c] s O cur) = rev cur ++ s.
Proof.
  induction s as [|x s IH]; intros cur.
  - simpl. now rewrite app_nil_r.
  - cbn [re_split_from Py.startswith]. rewrite andb_true_r.
    destruct (N.eqb_spec c x) as [<-|Hne].
    + rewrite join_cons by apply re_split_from_nonempty.
      cbn [length Nat.sub]. rewrite IH. reflexivity.
    + rewrite IH. cbn [rev]. now rewrite <- app_assoc.
Qed.

Lemma joined_len_nonneg (sl : Z) (l : list text) : 0 <= sl -> 0 <= joined_len sl l.
Proof.
  intros Hsl. induction l as [|a [|b l] IH]; cbn [joined_len] in *;
    unfold Py.len in *; lia.
Qed.

Lemma joined_len_cons (sl : Z) (p : text) (rest : list text) :
  joined_len sl (p :: rest) =
    Py.len p + match rest with [] => 0 | _ :: _ => sl + joined_len sl rest end.
Proof. reflexivity. Qed.

Lemma joined_len_filter (sl : Z) (l : list text) :
  0 <= sl ->
  joined_len sl (filter (fun p => is_true (nonempty p)) l) <= joined_len sl l.
Proof.
  intros Hsl. induction l as [|p rest IH]; [reflexivity|].
  rewrite joined_len_cons.
  pose proof (joined_len_nonneg sl rest Hsl) as Hrest.
  pose proof (joined_len_nonneg sl (filter (fun p => is_true (nonempty p)) rest) Hsl) as Hf.
  rewrite filter_cons. destruct (decide (is_true (nonempty p))) as [Hp|Hp].
  - rewrite joined_len_cons.
    destruct (filter _ rest) as [|q f] eqn:Hfr.
    + destruct rest; lia.
    + destruct rest as [|r rest]; [discriminate|]. lia.
  - destruct p; [|exfalso; apply Hp; reflexivity].
    destruct rest as [|r rest]; [reflexivity|]. unfold Py.len. cbn [length]. lia.
Qed.

Lemma joined_len_app_le (sl : Z) (l r : list text) :
  0 <= sl -> joined_len sl l <= joined_len sl (l ++ r).
Proof.
  intros Hsl. induction l as [|p l IH].
  - apply joined_len_nonneg, Hsl.
  - cbn [app]. rewrite !joined_len_cons.
    pose proof (joined_len_nonneg sl (l ++ r) Hsl).
    destruct l as [|q l]; cbn [app] in *.
    + destruct r; lia.
    + lia.
Qed.

(** While the pieces joined stay within the chunk size, the loop only
    collects them. *)
Lemma merge_loop_collects (sp : t) (sep : text) (splits : list text) :
  forall cur,
    joined_len (Py.len sep) (cur ++ splits) <= chunk_size sp ->
    merge_loop sp sep splits
      {| docs := []; current_doc := cur; total := joined_len (Py.len sep) cur |} =
    Ok {| docs := []; current_doc := cur ++ splits;
          total := joined_len (Py.len sep) (cur ++ splits) |}.
Proof.
  pose proof (len_nonneg sep) as Hsl.
  induction splits as [|d splits IH]; intros cur Hfit.
  - now rewrite app_nil_r.
  - cbn [merge_loop]. unfold merge_step. cbn [docs current_doc total].
    replace (cur ++ d :: splits) with ((cur ++ [d]) ++ splits) in *
      by now rewrite <- app_assoc.
    pose proof (joined_len_app_le (Py.len sep) (cur ++ [d]) splits Hsl) as Hle.
    rewrite joined_len_snoc in Hle.
    replace (chunk_size sp <? _) with false by (symmetry; apply Z.ltb_ge; lia).
    cbn [docs current_doc total]. rewrite sep_if_more_snoc.
    replace (joined_len (Py.len sep) cur + (Py.len d + sep_if_more 0 cur (Py.len sep)))
      with (joined_len (Py.len sep) (cur ++ [d])) by (rewrite joined_len_snoc; lia).
    apply IH. exact Hfit.
Qed.

(** X14. A text that fits in one chunk is not cut: it yields at most
    one chunk, its non-empty lines joined by newlines and stripped;
    when it has no empty line and no white space at its ends, the
    chunk is the text itself. *)
Theorem split_text_short_text (size overlap : Z) (sp : t) (s : text) :
  create size overlap [10%N] = Ok sp ->
  Py.len s <= size ->
  split_text sp s =
    Ok (option_list (_join_docs (_split_text_with_regex s [10%N]) [10%N])) /\
  (s <> [] -> Py.strip s = s -> Forall (fun line => line <> []) (re_split [10%N] s) ->
   split_text sp s = Ok [s]).
Proof.
  intros (Hsize & Hov & Hsep & Hpos & Hrange)%create_bounds Hfit.
  assert (Hsplit : split_text sp s =
            Ok (option_list (_join_docs (_split_text_with_regex s [10%N]) [10%N]))).
  { unfold split_text, _merge_splits. rewrite Hsep.
    rewrite (merge_loop_collects sp [10%N] _ []).
    - cbn [docs current_doc app]. now destruct (_join_docs _ _).
    - cbn [app]. rewrite Hsize.
      pose proof (joined_len_filter (Py.len [10%N]) (re_split [10%N] s) ltac:(apply len_nonneg)).
      rewrite <- (join_length [10%N] (re_split [10%N] s)) in H.
      unfold re_split in H at 2. rewrite join_re_split in H. cbn [rev app] in H.
      unfold _split_text_with_regex. lia. }
  split; [exact Hsplit|].
  intros Hne Hstrip Hlines. rewrite Hsplit. do 2 f_equal.
  unfold _split_text_with_regex.
  replace (filter _ (re_split [10%N] s)) with (re_split [10%N] s).
  - unfold _join_docs, re_split. rewrite join_re_split. cbn [rev app]. rewrite Hstrip.
    destruct s; [congruence | reflexivity].
  - symmetry. induction Hlines as [|line lines Hline _ IH]; [reflexivity|].
    rewrite filter_cons_True; [now rewrite IH|]. destruct line; [congruence | reflexivity].
Qed.

Lemma split_text_short_text_witness :
  split_text {| chunk_size := 500; chunk_overlap := 50; separator := [10%N] |}
    (str "A" ++ [10%N] ++ str "B" ++ [10%N] ++ str "C") =
  Ok [str "A" ++ [10%N] ++ str "B" ++ [10%N] ++ str "C"].
Proof.
  apply (split_text_short_text 500 50).
  - reflexivity.
  - vm_compute. discriminate.
  - discriminate.
  - reflexivity.
  - repeat constructor; discriminate.
Defined.

Section Metadata.

Context {W Emb Db : Type}.
Variable E : env W Emb Db.

Lemma split_documents_metadata (sp : t) (documents chunks : list Document) :
  split_documents sp documents = Ok chunks ->
  Forall (fun chunk => exists doc, In doc documents /\ metadata chunk = metadata doc)
         chunks.
Proof.
  unfold split_documents. revert chunks.
  induction documents as [|doc documents IH]; intros chunks; cbn [create_documents].
  - intros [= <-]. constructor.
  - destruct (split_text sp (page_content doc)) as [pieces|e]; [|discriminate].
    destruct (create_documents sp documents) as [rest|e]; [|discriminate].
    intros [= <-]. apply Forall_app. split.
    + apply Forall_fmap, Forall_forall. intros piece _. exists doc. split; [now left|reflexivity].
    + eapply Forall_impl; [apply IH; reflexivity|].
      intros chunk (d & Hd & Hmeta). exists d. split; [now right | exact Hmeta].
Qed.

Lemma adjust_documents_dom (docs_all docs' : list Document) :
  adjust_documents E docs_all = Ok docs' ->
  forall doc', In doc' docs' ->
    exists doc, In doc docs_all /\ dom (metadata doc') = dom (metadata doc).
Proof.
  revert docs'. induction docs_all as [|doc rest IH]; intros docs'; cbn [adjust_documents].
  - intros [= <-] doc' [].
  - destruct (adjust_document E doc) as [doc1|e] eqn:Hdoc; [|discriminate].
    destruct (adjust_documents E rest) as [rest1|e]; [|discriminate].
    intros [= <-] doc' [<-|Hin].
    + exists doc. split; [now left|].
      apply adjust_document_ok in Hdoc as [_ Hmeta].
      apply set_eq. intros k. rewrite !elem_of_dom. specialize (Hmeta k).
      destruct (metadata doc !! k) as [v|].
      * destruct Hmeta as (v' & _ & ->). split; eauto.
      * rewrite Hmeta. reflexivity.
    + destruct (IH rest1 eq_refl doc' Hin) as (d & Hd & Hdom).
      exists d. split; [now right | exact Hdom].
Qed.

(** X15. Normalising and then splitting keeps the metadata keys: every
    chunk carries exactly the keys of one of the documents loaded, so
    a chunk has a "source" whenever every loaded document has one. *)
Theorem chunks_keep_metadata_keys (sp : t) (docs_all docs' chunks : list Document) :
  adjust_documents E docs_all = Ok docs' ->
  split_documents sp docs' = Ok chunks ->
  Forall (fun chunk =>
            exists doc, In doc docs_all /\ dom (metadata chunk) = dom (metadata doc))
         chunks.
Proof.
  intros Hadj Hsplit. apply split_documents_metadata in Hsplit.
  eapply Forall_impl; [exact Hsplit|].
  intros chunk (doc' & Hin & ->).
  exact (adjust_documents_dom _ _ Hadj doc' Hin).
Qed.

End Metadata.

Lemma chunks_keep_metadata_keys_witness :
  Forall (fun chunk =>
            exists doc,
              In doc [mkDocument (str "ab" ++ [10%N] ++ str "cd" ++ [10%N] ++ str "ef")
                        (<[ str "page" := VInt 3 ]> {[ str "source" := VStr (str "a.pdf") ]})] /\
              dom (metadata chunk) = dom (metadata doc))
    [mkDocument (str "ab" ++ [10%N] ++ str "cd")
       (<[ str "page" := VInt 3 ]> {[ str "source" := VStr (str "a.pdf") ]});
     mkDocument (str "cd" ++ [10%N] ++ str "ef")
       (<[ str "page" := VInt 3 ]> {[ str "source" := VStr (str "a.pdf") ]})].
Proof.
  apply (chunks_keep_metadata_keys (Sample.environment Sample.win32 [])
           {| chunk_size := 5; chunk_overlap := 2; separator := [10%N] |}
           [mkDocument (str "ab" ++ [10%N] ++ str "cd" ++ [10%N] ++ str "ef")
              (<[ str "page" := VInt 3 ]> {[ str "source" := VStr (str "a.pdf") ]})]
           [mkDocument (str "ab" ++ [10%N] ++ str "cd" ++ [10%N] ++ str "ef")
              (<[ str "page" := VInt 3 ]> {[ str "source" := VStr (str "a.pdf") ]})]).
  - vm_compute. reflexivity.
  - vm_compute. reflexivity.
Defined.

(** ** An empty corpus *)

Section EmptyCorpus.

Context {W Emb Db : Type}.
Variable E : env W Emb Db.

(** X16. With an empty top folder and no URL configured, the
    statements before the [try] load no document and produce no chunk:
    they log the two counts as 0 and hand the empty list of chunks on,
    so that [Chroma.from_documents] is called with no document. *)
Theorem prepare_empty_corpus (p : text) (s : state W) (w1 : W) (emb : Emb)
    (sp : TextSplitter.t) (depth : nat) :
  os_makedirs E p (world s) = (Ok tt, w1) ->
  recursion_limit (rt E) = S depth ->
  os_path_isdir E (RAG_TOP_FOLDER_PATH E) w1 = true ->
  os_listdir E (RAG_TOP_FOLDER_PATH E) w1 = Ok [] ->
  WEB_URL_LOAD_TARGETS E = [] ->
  OpenAIEmbeddings E w1 = Ok emb ->
  TextSplitter.create (CHUNK_SIZE E) (CHUNK_OVERLAP E) [10%N] = Ok sp ->
  prepare E p s =
    (Ok (emb, []),
     {| world := w1;
        log := log s ++ [(INFO, MsgPersistDirectory p);
                         (INFO, MsgLoadedDocuments 0);
                         (INFO, MsgSplittedDocuments 0)];
        trace := trace s ++ [EvMakedirs p; EvOpenAIEmbeddings] |}).
Proof.
  intros Hmk Hlimit Hdir Hls Hurls Hemb Hsp.
  unfold prepare, load_data_sources. rewrite Hlimit, Hurls.
  cbn [recursive_file_check for_each].
  repeat first
    [ rewrite bind_assoc | rewrite bind_emit | rewrite bind_logger
    | rewrite bind_call | rewrite bind_read | rewrite bind_pure
    | rewrite bind_query | rewrite bind_ret
    | progress cbn [world log trace emitted logged with_world fst snd
                    for_each adjust_documents app length]
    | rewrite Hmk | rewrite Hdir | rewrite Hls | rewrite Hemb | rewrite Hsp ].
  change (TextSplitter.split_documents sp []) with (@Ok (list Document) []).
  cbv beta iota. rewrite bind_logger.
  unfold ret, logged, with_world, emitted. cbn [world log trace length].
  now rewrite <- !app_assoc.
Qed.

End EmptyCorpus.

Lemma prepare_empty_corpus_witness :
  fst (prepare (Sample.environment Sample.linux []) (str "chroma_db")
         (Sample.initial {| Sample.dirs := [(str "data", [])]; Sample.files := [] |})) =
  Ok (tt, []).
Proof.
  rewrite (prepare_empty_corpus (Sample.environment Sample.linux []) (str "chroma_db")
             (Sample.initial {| Sample.dirs := [(str "data", [])]; Sample.files := [] |})
             (snd (Sample.makedirs (str "chroma_db")
                     {| Sample.dirs := [(str "data", [])]; Sample.files := [] |}))
             tt {| chunk_size := 500; chunk_overlap := 50; separator := [10%N] |} 999);
    reflexivity.
Defined.
